(** * Notes Management API: a shallow embedding of [src/api/main.py]

    The development follows the layout of the Python module:

    - [PyStr]: Python [str] values as sequences of Unicode code points, with
      [str.isspace] and [str.strip];
    - [NoteBase], [NoteCreate], [NoteUpdate] and [Note]: the pydantic models
      together with their field validators;
    - [NotesService]: the service class over its [Dict[UUID, Note]] store,
      written in a state-and-exception monad;
    - [Api]: the FastAPI route handlers and the status codes they produce;
    - runs of method calls, and the properties of the specification.

    The two readings the service takes from its environment,
    [datetime.utcnow()] and [uuid4()], are explicit arguments of the
    operations that perform them. *)

From Stdlib Require Import ZArith NArith List Bool Lia.
From stdpp Require Import base option list strings gmap fin_maps.

Open Scope Z_scope.

(** ** Python strings *)

Module PyStr.

(** A [str] is a sequence of Unicode code points. *)
Definition char := N.
Definition str := list char.

(** [str.isspace] on one code point: the characters CPython classifies as
    whitespace ([_PyUnicode_IsWhitespace]). *)
Definition isspace (c : char) : bool :=
  ((9 <=? c) && (c <=? 13))%N          (* \t \n \v \f \r *)
  || ((28 <=? c) && (c <=? 32))%N      (* FS GS RS US and space *)
  || (c =? 133)%N                      (* U+0085 *)
  || (c =? 160)%N                      (* U+00A0 *)
  || (c =? 5760)%N                     (* U+1680 *)
  || ((8192 <=? c) && (c <=? 8202))%N  (* U+2000 .. U+200A *)
  || (c =? 8232)%N || (c =? 8233)%N    (* U+2028, U+2029 *)
  || (c =? 8239)%N                     (* U+202F *)
  || (c =? 8287)%N                     (* U+205F *)
  || (c =? 12288)%N.                   (* U+3000 *)

(** [s.lstrip()], [s.rstrip()] and [s.strip()] without arguments. *)
Fixpoint lstrip (s : str) : str :=
  match s with
  | [] => []
  | c :: r => if isspace c then lstrip r else s
  end.

Definition rstrip (s : str) : str := rev (lstrip (rev s)).

Definition strip (s : str) : str := rstrip (lstrip s).

(** Truthiness of a [str]: [not s] holds exactly for the empty string. *)
Definition truthy (s : str) : bool :=
  match s with [] => false | _ :: _ => true end.

(** A string is blank when it is empty or made of whitespace only. *)
Definition blank (s : str) : bool := forallb isspace s.

(** [s.encode("utf-8")] raises [UnicodeEncodeError] exactly when [s] holds a
    surrogate code point (U+D800 to U+DFFF); a [str] read from JSON holds one
    when the text has an unpaired surrogate escape. *)
Definition surrogate (c : char) : bool := ((55296 <=? c) && (c <=? 57343))%N.
Definition encodable (s : str) : bool := forallb (fun c => negb (surrogate c)) s.

(** Code points of the printable ASCII characters used in examples. *)
Definition SP : char := 32%N.
Definition TAB : char := 9%N.
Definition NBSP : char := 160%N.
Definition ch_X : char := 88%N.
Definition ch_a : char := 97%N.
Definition ch_b : char := 98%N.

End PyStr.

Import PyStr.


(** ** Request bodies, errors and results *)

(** A JSON value found under a key of a request body. Only the distinction
    the schemas make is kept: [null], a string, or any other value (number,
    boolean, array, object), which a [str] field rejects. *)
Inductive json :=
| JNull
| JStr (s : str)
| JOther.

(** The JSON object sent as the body of [POST /notes] and [PUT /notes/{id}],
    read at the two keys the schemas declare; [None] is an absent key. *)
Record body := Body {
  body_title : option json;
  body_content : option json
}.

Inductive field := F_title | F_content | F_note_id.

(** One entry of a validation error: the field it is located at and what
    went wrong there. *)
Inductive error_type :=
| missing
| string_type
| uuid_parsing
| value_error (msg : string).

Record error_detail := ErrorDetail {
  loc : field;
  type_ : error_type
}.

(** The exceptions the module raises: [KeyError] from the service, and
    pydantic's [ValidationError] from building a model. *)
Inductive exn :=
| KeyError (msg : string)
| ValidationError (errors : list error_detail).

Inductive result (A : Type) :=
| Ok (a : A)
| Raise (e : exn).
Arguments Ok {A} a.
Arguments Raise {A} e.

(** Timestamps are naive UTC [datetime] values, counted in microseconds;
    a [UUID] is represented by its 128-bit integer. *)
Definition datetime := Z.
Definition UUID := N.

(** ** Schemas *)

Module NoteBase.

(** [validate_title_non_empty]: the validator runs after the field was
    accepted as a [str], so the [isinstance] test never fires. *)
Definition validate_title_non_empty (v : str) : string + str :=
  if negb (truthy (strip v))
  then inl "title must be a non-empty string"%string
  else inr (strip v).

(** The field [title: str = Field(...)] read from a body. *)
Definition title_field (v : option json) : list error_detail + str :=
  match v with
  | None => inl [ErrorDetail F_title missing]
  | Some (JStr s) =>
      match validate_title_non_empty s with
      | inl msg => inl [ErrorDetail F_title (value_error msg)]
      | inr t => inr t
      end
  | Some _ => inl [ErrorDetail F_title string_type]
  end.

(** The field [content: Optional[str] = Field(None)] read from a body. *)
Definition content_field (v : option json) : list error_detail + option str :=
  match v with
  | None => inr None
  | Some JNull => inr None
  | Some (JStr s) => inr (Some s)
  | Some JOther => inl [ErrorDetail F_content string_type]
  end.

End NoteBase.

Module NoteCreate.

Record t := Build {
  title : str;
  content : option str
}.

(** Building a [NoteCreate] from a request body; the errors of all fields
    are reported together. *)
Definition model_validate (b : body) : list error_detail + t :=
  match NoteBase.title_field (body_title b), NoteBase.content_field (body_content b) with
  | inr ti, inr co => inr (Build ti co)
  | inl e1, inr _ => inl e1
  | inr _, inl e2 => inl e2
  | inl e1, inl e2 => inl (e1 ++ e2)
  end.

End NoteCreate.

Module NoteUpdate.

Record t := Build {
  title : option str;
  content : option str
}.

(** [validate_title_if_present]. *)
Definition validate_title_if_present (v : option str) : string + option str :=
  match v with
  | None => inr None
  | Some s =>
      if negb (truthy (strip s))
      then inl "title must be a non-empty string when provided"%string
      else inr (Some (strip s))
  end.

(** The field [title: Optional[str] = Field(None)]: an absent key takes the
    default without running the validator; [null] and strings go through it. *)
Definition title_field (v : option json) : list error_detail + option str :=
  match v with
  | None => inr None
  | Some JOther => inl [ErrorDetail F_title string_type]
  | Some j =>
      match validate_title_if_present (match j with JStr s => Some s | _ => None end) with
      | inl msg => inl [ErrorDetail F_title (value_error msg)]
      | inr t => inr t
      end
  end.

Definition model_validate (b : body) : list error_detail + t :=
  match title_field (body_title b), NoteBase.content_field (body_content b) with
  | inr ti, inr co => inr (Build ti co)
  | inl e1, inr _ => inl e1
  | inr _, inl e2 => inl e2
  | inl e1, inl e2 => inl (e1 ++ e2)
  end.

End NoteUpdate.

Module Note.

Record t := Build {
  id : UUID;
  title : str;
  content : option str;
  created_at : datetime;
  updated_at : datetime
}.

(** The keyword arguments of [Note(...)], which is also what [model_dump]
    returns: one entry per field. *)
Record data := Data {
  d_id : UUID;
  d_title : str;
  d_content : option str;
  d_created_at : datetime;
  d_updated_at : datetime
}.

(** Building a [Note] from its keyword arguments: [Note] inherits the title validator of [NoteBase], so
    the title is stripped and checked again each time a note is built. *)
Definition new (d : data) : result t :=
  match NoteBase.validate_title_non_empty (d_title d) with
  | inl msg => Raise (ValidationError [ErrorDetail F_title (value_error msg)])
  | inr ti => Ok (Build (d_id d) ti (d_content d) (d_created_at d) (d_updated_at d))
  end.

Definition model_dump (n : t) : data :=
  Data (id n) (title n) (content n) (created_at n) (updated_at n).

End Note.

(** ** The service *)

Module NotesService.

(** [self._store : Dict[UUID, Note]]. Only lookups, membership and the
    collection of values are used below; the iteration order of the Python
    dict is not represented. *)
Abbreviation store := (gmap UUID Note.t).

(** Methods run in a state-and-exception monad over the store; a raised
    exception keeps whatever the method had written before. *)
Definition M (A : Type) : Type := store -> result A * store.

Definition ret {A} (a : A) : M A := fun st => (Ok a, st).
Definition raise {A} (e : exn) : M A := fun st => (Raise e, st).
Definition bind {A B} (m : M A) (k : A -> M B) : M B :=
  fun st =>
    match m st with
    | (Ok a, st') => k a st'
    | (Raise e, st') => (Raise e, st')
    end.
Definition lift {A} (r : result A) : M A := fun st => (r, st).

#[global] Instance M_ret : MRet M := @ret.
#[global] Instance M_bind : MBind M := fun A B k m => bind m k.

(** Primitive accesses to [self._store]. *)
Definition store_get (k : UUID) : M (option Note.t) := fun st => (Ok (st !! k), st).
Definition store_set (k : UUID) (v : Note.t) : M unit := fun st => (Ok tt, <[k := v]> st).
Definition store_contains (k : UUID) : M bool := fun st => (Ok (bool_decide (is_Some (st !! k))), st).
Definition store_del (k : UUID) : M unit := fun st => (Ok tt, delete k st).
Definition store_values : M (list Note.t) := fun st => (Ok (map snd (map_to_list st)), st).

(** [__init__]: the store starts empty. *)
Definition init : store := ∅.

(** [create]; [now] is the value of [datetime.utcnow()] and [uuid] the
    value of [uuid4()]. *)
Definition create (now : datetime) (uuid : UUID) (payload : NoteCreate.t) : M Note.t :=
  note ← lift (Note.new (Note.Data uuid (NoteCreate.title payload)
                                  (NoteCreate.content payload) now now));
  store_set (Note.id note) note;;
  ret note.

(** [list]. *)
Definition list_ : M (list Note.t) := store_values.

(** [get]. A model instance is always truthy, so [not note] tests for the
    [None] returned by [dict.get]. *)
Definition get (note_id : UUID) : M Note.t :=
  note ← store_get note_id;
  match note with
  | None => raise (KeyError "not_found")
  | Some n => ret n
  end.

(** [update]; [now] is the value of [datetime.utcnow()], read after the
    note was found. *)
Definition update (now : datetime) (note_id : UUID) (payload : NoteUpdate.t) : M Note.t :=
  note ← store_get note_id;
  match note with
  | None => raise (KeyError "not_found")
  | Some n =>
      let data := Note.model_dump n in
      let data :=
        match NoteUpdate.title payload with
        | Some ti => Note.Data (Note.d_id data) ti (Note.d_content data)
                               (Note.d_created_at data) (Note.d_updated_at data)
        | None => data
        end in
      let data :=
        match NoteUpdate.content payload with
        | Some co => Note.Data (Note.d_id data) (Note.d_title data) (Some co)
                               (Note.d_created_at data) (Note.d_updated_at data)
        | None => data
        end in
      let data := Note.Data (Note.d_id data) (Note.d_title data) (Note.d_content data)
                            (Note.d_created_at data) now in
      updated ← lift (Note.new data);
      store_set note_id updated;;
      ret updated
  end.

(** [delete]. *)
Definition delete (note_id : UUID) : M unit :=
  present ← store_contains note_id;
  if negb present then raise (KeyError "not_found")
  else store_del note_id.

End NotesService.

Import NotesService.

(** ** Route handlers *)

Module Api.

Inductive content_ :=
| NoteBody (n : Note.t)
| NotesBody (l : list Note.t)
| HealthBody                           (* {"status": "ok"} *)
| DetailBody (detail : string)         (* {"detail": "..."} *)
| ErrorsBody (detail : list error_detail)
| TextBody (text : string)
| EmptyBody.

Record response := Response {
  status_code : Z;
  resp_body : content_
}.

(** What the framework answers when the body does not validate against the
    declared schema, and when a handler lets an exception escape. *)
Definition request_validation_error (errs : list error_detail) : response :=
  Response 422 (ErrorsBody errs).
Definition internal_server_error : response :=
  Response 500 (TextBody "Internal Server Error").

(** Sending a note: the routes declare [response_model=Note], so the value
    the handler returns is serialized to JSON and encoded as UTF-8 after the
    handler has run. The title and the content are the two [str] fields;
    when one of them cannot be encoded the serialization raises and the
    request is answered 500, whatever the handler has already written. *)
Definition serializable (n : Note.t) : bool :=
  encodable (Note.title n)
  && match Note.content n with
     | Some co => encodable co
     | None => true
     end.

Definition note_response (status : Z) (n : Note.t) : response :=
  if serializable n then Response status (NoteBody n) else internal_server_error.

Definition notes_response (l : list Note.t) : response :=
  if forallb serializable l then Response 200 (NotesBody l) else internal_server_error.

Definition not_found : response := Response 404 (DetailBody "Note not found").

Definition health_check : response := Response 200 HealthBody.

(** [POST /notes]. *)
Definition create_note (now : datetime) (uuid : UUID) (b : body) (st : store) : response * store :=
  match NoteCreate.model_validate b with
  | inl errs => (request_validation_error errs, st)
  | inr payload =>
      match create now uuid payload st with
      | (Ok n, st') => (note_response 201 n, st')
      | (Raise _, st') => (internal_server_error, st')
      end
  end.

(** [GET /notes]. *)
Definition list_notes (st : store) : response * store :=
  match list_ st with
  | (Ok l, st') => (notes_response l, st')
  | (Raise _, st') => (internal_server_error, st')
  end.

(** [GET /notes/{note_id}]. *)
Definition get_note (note_id : UUID) (st : store) : response * store :=
  match get note_id st with
  | (Ok n, st') => (note_response 200 n, st')
  | (Raise (KeyError _), st') => (not_found, st')
  | (Raise _, st') => (internal_server_error, st')
  end.

(** [PUT /notes/{note_id}]. *)
Definition update_note (now : datetime) (note_id : UUID) (b : body) (st : store) : response * store :=
  match NoteUpdate.model_validate b with
  | inl errs => (request_validation_error errs, st)
  | inr payload =>
      match update now note_id payload st with
      | (Ok n, st') => (note_response 200 n, st')
      | (Raise (KeyError _), st') => (not_found, st')
      | (Raise _, st') => (internal_server_error, st')
      end
  end.

(** [DELETE /notes/{note_id}]. *)
Definition delete_note (note_id : UUID) (st : store) : response * store :=
  match delete note_id st with
  | (Ok _, st') => (Response 204 EmptyBody, st')
  | (Raise (KeyError _), st') => (not_found, st')
  | (Raise _, st') => (internal_server_error, st')
  end.

End Api.

Import Api.

(** ** Runs of the service *)

(** One call of a public method of [NotesService], with the values it reads
    from the clock and from the UUID generator. Payloads are arbitrary
    records here; those a handler passes are the ones [model_validate]
    returns. *)
Inductive op :=
| Create (now : datetime) (uuid : UUID) (payload : NoteCreate.t)
| List
| Get (note_id : UUID)
| Update (now : datetime) (note_id : UUID) (payload : NoteUpdate.t)
| Delete (note_id : UUID).

Inductive outcome :=
| ONote (r : result Note.t)
| ONotes (r : result (list Note.t))
| ONone (r : result unit).

Definition exec (o : op) (st : store) : outcome * store :=
  match o with
  | Create now uuid payload => let (r, st') := create now uuid payload st in (ONote r, st')
  | List => let (r, st') := list_ st in (ONotes r, st')
  | Get note_id => let (r, st') := get note_id st in (ONote r, st')
  | Update now note_id payload => let (r, st') := update now note_id payload st in (ONote r, st')
  | Delete note_id => let (r, st') := delete note_id st in (ONone r, st')
  end.

Definition step (o : op) (st : store) : store := snd (exec o st).

Fixpoint run (ops : list op) (st : store) : store :=
  match ops with
  | [] => st
  | o :: rest => run rest (step o st)
  end.

(** The store states the service can be in: it starts empty and changes
    only through its methods. *)
Inductive reachable : store -> Prop :=
| reachable_init : reachable init
| reachable_step o st : reachable st -> reachable (step o st).

Definition succeeded (out : outcome) : bool :=
  match out with
  | ONote (Ok _) | ONotes (Ok _) | ONone (Ok _) => true
  | _ => false
  end.

(** Every [Create] and [Delete] of the run returns normally. *)
Fixpoint creates_deletes_succeed (ops : list op) (st : store) : bool :=
  match ops with
  | [] => true
  | o :: rest =>
      match o with
      | Create _ _ _ | Delete _ => succeeded (fst (exec o st))
      | _ => true
      end && creates_deletes_succeed rest (step o st)
  end.

Definition is_create (o : op) : bool :=
  match o with Create _ _ _ => true | _ => false end.
Definition is_delete (o : op) : bool :=
  match o with Delete _ => true | _ => false end.

(** The values [uuid4()] returned during a run, in order. *)
Fixpoint uuid4_draws (ops : list op) : list UUID :=
  match ops with
  | [] => []
  | Create _ uuid _ :: rest => uuid :: uuid4_draws rest
  | _ :: rest => uuid4_draws rest
  end.

(** The ids of the notes returned by [create] during a run, in order. *)
Fixpoint assigned_ids (ops : list op) (st : store) : list UUID :=
  match ops with
  | [] => []
  | o :: rest =>
      match o, fst (exec o st) with
      | Create _ _ _, ONote (Ok n) => Note.id n :: assigned_ids rest (step o st)
      | _, _ => assigned_ids rest (step o st)
      end
  end.

(** No [Create] of the run draws an id that is a key of the store at that
    moment, so no [create] overwrites a note. *)
Fixpoint creates_fresh (ops : list op) (st : store) : Prop :=
  match ops with
  | [] => True
  | o :: rest =>
      match o with
      | Create _ uuid _ => st !! uuid = None
      | _ => True
      end /\ creates_fresh rest (step o st)
  end.

Definition count (f : op -> bool) (ops : list op) : nat :=
  length (List.filter f ops).

(** The values of [datetime.utcnow()] handed to the operations of a run. *)
Fixpoint clock_reads (ops : list op) : list datetime :=
  match ops with
  | [] => []
  | Create now _ _ :: rest => now :: clock_reads rest
  | Update now _ _ :: rest => now :: clock_reads rest
  | _ :: rest => clock_reads rest
  end.

(** A clock that never runs backwards: each reading is at least [t]. *)
Fixpoint nondecreasing_from (t : datetime) (l : list datetime) : Prop :=
  match l with
  | [] => True
  | x :: rest => t <= x /\ nondecreasing_from x rest
  end.

Definition nondecreasing (l : list datetime) : Prop :=
  match l with
  | [] => True
  | x :: rest => nondecreasing_from x rest
  end.

(** ** Requests *)

(** A request as it reaches the application. The path segment [{note_id}]
    is given by what its conversion to a [UUID] yields: [Some] id, or [None]
    when the segment is not a UUID. *)
Inductive request :=
| GET_health
| POST_notes (now : datetime) (uuid : UUID) (b : body)
| GET_notes
| GET_note (note_id : option UUID)
| PUT_note (now : datetime) (note_id : option UUID) (b : body)
| DELETE_note (note_id : option UUID).

Definition malformed_id : error_detail := ErrorDetail F_note_id uuid_parsing.

(** The handler runs only when every parameter validated; the errors of the
    path and of the body are reported together, and the store is not
    touched. *)
Definition handle (r : request) (st : store) : response * store :=
  match r with
  | GET_health => (health_check, st)
  | POST_notes now uuid b => create_note now uuid b st
  | GET_notes => list_notes st
  | GET_note (Some note_id) => get_note note_id st
  | GET_note None => (request_validation_error [malformed_id], st)
  | PUT_note now (Some note_id) b => update_note now note_id b st
  | PUT_note now None b =>
      (request_validation_error
         (malformed_id :: match NoteUpdate.model_validate b with
                          | inl errs => errs
                          | inr _ => []
                          end), st)
  | DELETE_note (Some note_id) => delete_note note_id st
  | DELETE_note None => (request_validation_error [malformed_id], st)
  end.

(** ** Store invariants *)

(** Every note is filed under its own id. *)
Definition keyed_by_id (st : store) : Prop :=
  forall k n, st !! k = Some n -> Note.id n = k.

(** No stored title is empty or whitespace-only. *)
Definition titles_non_blank (st : store) : Prop :=
  forall k n, st !! k = Some n -> blank (Note.title n) = false.

(** What a validated title looks like: already stripped, and not blank. *)
Definition clean (t : str) : Prop := strip t = t /\ blank t = false.

Definition titles_clean (st : store) : Prop :=
  forall k n, st !! k = Some n -> clean (Note.title n).

(** No stored note was updated before it was created. *)
Definition timestamps_ordered (st : store) : Prop :=
  forall k n, st !! k = Some n -> Note.created_at n <= Note.updated_at n.

(** The keyword arguments [update] passes to [Note(...)] for a found note
    [n], after the two conditional assignments and the timestamp. *)
Definition update_data (now : datetime) (payload : NoteUpdate.t) (n : Note.t) : Note.data :=
  Note.Data (Note.id n)
            (default (Note.title n) (NoteUpdate.title payload))
            (match NoteUpdate.content payload with
             | Some co => Some co
             | None => Note.content n
             end)
            (Note.created_at n) now.

(** The note [update] stores for a found note [n]: the payload's fields
    where it has them, the old ones elsewhere, and the new timestamp. *)
Definition merged (now : datetime) (payload : NoteUpdate.t) (n : Note.t) : Note.t :=
  Note.Build (Note.id n)
             (default (Note.title n) (NoteUpdate.title payload))
             (match NoteUpdate.content payload with
              | Some co => Some co
              | None => Note.content n
              end)
             (Note.created_at n)
             now.

(** Sample values used by the closed examples: three version-4 UUIDs and a
    few strings. *)
Definition uuid_a : UUID := 0x000000000000400080000000000000a1%N.
Definition uuid_b : UUID := 0x000000000000400080000000000000b2%N.
Definition uuid_c : UUID := 0x000000000000400080000000000000c3%N.
Definition s_X : str := [ch_X].
Definition s_a : str := [ch_a].
Definition s_b : str := [ch_b].
Definition s_padded_X : str := [SP; ch_X; SP].

Definition p_ab : NoteCreate.t := NoteCreate.Build s_a (Some s_b).
Definition n_one : Note.t := Note.Build uuid_a s_a (Some s_b) 100 100.
Definition st_one : store := run [Create 100 uuid_a p_ab] init.
Definition n_retitled : Note.t := Note.Build uuid_a s_X (Some s_b) 100 100.
Definition n_backdated : Note.t := Note.Build uuid_a s_a (Some s_a) 200 100.

(** A run in which the clock steps back between a creation and an update,
    and a run over three notes. *)
Definition ops_clock_back : list op :=
  [Create 200 uuid_a p_ab; Update 100 uuid_a (NoteUpdate.Build None (Some s_a))].
Definition ops_two_notes : list op :=
  [Create 100 uuid_a p_ab; Create 150 uuid_b p_ab; Update 200 uuid_a (NoteUpdate.Build None (Some s_a));
   Delete uuid_b; Create 300 uuid_c p_ab].

(** ** Vocabulary for further properties of the code *)

Definition is_read (r : request) : bool :=
  match r with
  | GET_health | GET_notes | GET_note _ => true
  | _ => false
  end.

Definition is_query (o : op) : bool :=
  match o with
  | List | Get _ => true
  | _ => false
  end.

(** The method calls that can end the life of the note filed under [k]:
    deleting it, or creating another note under the same id. *)
Definition ends_note (k : UUID) (o : op) : bool :=
  match o with
  | Create _ uuid _ => (uuid =? k)%N
  | Delete note_id => (note_id =? k)%N
  | _ => false
  end.

(** Two update payloads merged into one, the later one winning on the
    fields both supply. *)
Definition later_wins (p1 p2 : NoteUpdate.t) : NoteUpdate.t :=
  NoteUpdate.Build
    (match NoteUpdate.title p2 with
     | Some ti => Some ti
     | None => NoteUpdate.title p1
     end)
    (match NoteUpdate.content p2 with
     | Some co => Some co
     | None => NoteUpdate.content p1
     end).

(** Further sample values; [s_lone] is the string of the JSON text
    ["\ud800"]. *)
Definition s_lone : str := [55296%N].
Definition n_lone : Note.t := Note.Build uuid_b s_lone None 150 150.
Definition s_a_b : str := [TAB; ch_a; SP; ch_b; NBSP; SP].
Definition st_two : store := run [Create 100 uuid_a p_ab; Create 150 uuid_b p_ab] init.
Definition n_two : Note.t := Note.Build uuid_b s_a (Some s_b) 150 150.
Definition ops_updates : list op :=
  [Update 200 uuid_a (NoteUpdate.Build (Some s_X) None); Get uuid_b; Delete uuid_b;
   Update 300 uuid_a (NoteUpdate.Build None None); List; Create 400 uuid_c p_ab].

(** ** Facts about [strip] *)

Section StripFacts.

Lemma lstrip_blank (s : str) : blank s = true -> lstrip s = [].
Proof.
  induction s as [|c r IH]; simpl; [reflexivity|].
  intros H. apply andb_true_iff in H as [Hc Hr].
  rewrite Hc. auto.
Qed.

Lemma lstrip_nil_blank (s : str) : lstrip s = [] -> blank s = true.
Proof.
  induction s as [|c r IH]; simpl; [reflexivity|].
  destruct (isspace c) eqn:Hc; [auto | discriminate].
Qed.

Lemma blank_app (s t : str) : blank (s ++ t) = blank s && blank t.
Proof. unfold blank. apply forallb_app. Qed.

Lemma blank_rev (s : str) : blank (rev s) = blank s.
Proof.
  induction s as [|c r IH]; simpl; [reflexivity|].
  rewrite blank_app, IH. simpl. rewrite andb_true_r. apply andb_comm.
Qed.

(** [lstrip] returns a suffix: the dropped prefix is blank. *)
Lemma lstrip_suffix (s : str) :
  exists p, s = p ++ lstrip s /\ blank p = true.
Proof.
  induction s as [|c r [p [Hp Hb]]]; simpl.
  - exists []. split; reflexivity.
  - destruct (isspace c) eqn:Hc.
    + exists (c :: p). simpl. rewrite Hc, Hb. split; [congruence | reflexivity].
    + exists []. split; reflexivity.
Qed.

(** The head of a non-empty [lstrip] result is not whitespace. *)
Lemma lstrip_head (s : str) c r : lstrip s = c :: r -> isspace c = false.
Proof.
  induction s as [|d t IH]; simpl; [discriminate|].
  destruct (isspace d) eqn:Hd; [exact IH|].
  intros [= <- _]. exact Hd.
Qed.

Lemma lstrip_fix (s : str) c r : lstrip s = c :: r -> lstrip (c :: r) = c :: r.
Proof. intros H. simpl. rewrite (lstrip_head _ _ _ H). reflexivity. Qed.

Lemma lstrip_idem (s : str) : lstrip (lstrip s) = lstrip s.
Proof.
  destruct (lstrip s) as [|c r] eqn:E; [reflexivity|].
  exact (lstrip_fix _ _ _ E).
Qed.

Lemma rstrip_idem (s : str) : rstrip (rstrip s) = rstrip s.
Proof. unfold rstrip. rewrite rev_involutive, lstrip_idem. reflexivity. Qed.

(** [rstrip] keeps the first character when it is not whitespace. *)
Lemma rstrip_cons_nonspace c (r : str) :
  isspace c = false -> exists r', rstrip (c :: r) = c :: r'.
Proof.
  intros Hc. unfold rstrip. simpl.
  destruct (lstrip_suffix (rev r ++ [c])) as [p [Hp Hb]].
  destruct (lstrip (rev r ++ [c])) as [|d t] eqn:E.
  - apply lstrip_nil_blank in E. rewrite blank_app in E. simpl in E.
    rewrite Hc in E. rewrite andb_false_r in E. discriminate.
  - assert (Hrev : rev (rev r ++ [c]) = rev (p ++ d :: t)) by (f_equal; exact Hp).
    rewrite rev_app_distr in Hrev. simpl in Hrev. rewrite rev_involutive in Hrev.
    rewrite rev_app_distr in Hrev. simpl in Hrev.
    destruct (rev t ++ [d]) as [|e u] eqn:Eu.
    + destruct (rev t); discriminate.
    + simpl in Hrev. injection Hrev as He Hu. subst e.
      simpl. rewrite Eu. eauto.
Qed.

Lemma strip_blank (s : str) : blank s = true -> strip s = [].
Proof. intros H. unfold strip. rewrite (lstrip_blank _ H). reflexivity. Qed.

Lemma strip_nil_blank (s : str) : strip s = [] -> blank s = true.
Proof.
  unfold strip. intros H.
  destruct (lstrip s) as [|c r] eqn:E.
  - apply lstrip_nil_blank. exact E.
  - destruct (rstrip_cons_nonspace c r (lstrip_head _ _ _ E)) as [r' Hr'].
    rewrite Hr' in H. discriminate.
Qed.

(** [strip s] is empty exactly when [s] is empty or whitespace-only. *)
Lemma strip_nil_iff (s : str) : strip s = [] <-> blank s = true.
Proof. split; [apply strip_nil_blank | apply strip_blank]. Qed.

(** A non-empty [strip] result starts with a non-whitespace character. *)
Lemma strip_head (s : str) c r : strip s = c :: r -> isspace c = false.
Proof.
  unfold strip. intros H.
  destruct (lstrip s) as [|d t] eqn:E; [discriminate|].
  pose proof (lstrip_head _ _ _ E) as Hd.
  destruct (rstrip_cons_nonspace d t Hd) as [r' Hr'].
  rewrite Hr' in H. injection H as -> _. exact Hd.
Qed.

Lemma strip_nonblank (s : str) : strip s <> [] -> blank (strip s) = false.
Proof.
  intros H. destruct (strip s) as [|c r] eqn:E; [congruence|].
  simpl. rewrite (strip_head _ _ _ E). reflexivity.
Qed.

Lemma lstrip_rstrip_comm_head (s : str) c r :
  lstrip s = c :: r -> lstrip (rstrip (c :: r)) = rstrip (c :: r).
Proof.
  intros E. destruct (rstrip_cons_nonspace c r (lstrip_head _ _ _ E)) as [r' Hr'].
  rewrite Hr'. simpl. rewrite (lstrip_head _ _ _ E). reflexivity.
Qed.

(** [strip] is idempotent: a validated title validates to itself. *)
Lemma strip_idem (s : str) : strip (strip s) = strip s.
Proof.
  unfold strip. destruct (lstrip s) as [|c r] eqn:E; [reflexivity|].
  rewrite (lstrip_rstrip_comm_head _ _ _ E). apply rstrip_idem.
Qed.

End StripFacts.

(** ** Validators *)

Section Validators.

Lemma truthy_strip_blank (s : str) : truthy (strip s) = negb (blank s).
Proof.
  destruct (blank s) eqn:B.
  - rewrite (strip_blank _ B). reflexivity.
  - destruct (strip s) eqn:E; [|reflexivity].
    apply strip_nil_blank in E. congruence.
Qed.

Lemma validate_title_blank (s : str) :
  blank s = true ->
  NoteBase.validate_title_non_empty s = inl "title must be a non-empty string"%string.
Proof.
  intros B. unfold NoteBase.validate_title_non_empty.
  rewrite truthy_strip_blank, B. reflexivity.
Qed.

Lemma validate_title_non_blank (s : str) :
  blank s = false -> NoteBase.validate_title_non_empty s = inr (strip s).
Proof.
  intros B. unfold NoteBase.validate_title_non_empty.
  rewrite truthy_strip_blank, B. reflexivity.
Qed.

Lemma validate_title_inr (s t : str) :
  NoteBase.validate_title_non_empty s = inr t -> t = strip s /\ blank s = false.
Proof.
  destruct (blank s) eqn:B.
  - rewrite (validate_title_blank _ B). discriminate.
  - rewrite (validate_title_non_blank _ B). intros [= <-]. auto.
Qed.

Lemma strip_clean (s : str) : blank s = false -> clean (strip s).
Proof.
  intros B. split; [apply strip_idem|].
  apply strip_nonblank. intros E. apply strip_nil_blank in E. congruence.
Qed.

Lemma NoteCreate_validated (b : body) (p : NoteCreate.t) :
  NoteCreate.model_validate b = inr p -> clean (NoteCreate.title p).
Proof.
  unfold NoteCreate.model_validate, NoteBase.title_field.
  destruct (body_title b) as [[|s|]|]; try (destruct (NoteBase.content_field _); discriminate).
  destruct (NoteBase.validate_title_non_empty s) as [m|t] eqn:V;
    destruct (NoteBase.content_field _); try discriminate.
  intros [= <-]. simpl. apply validate_title_inr in V as [-> B].
  apply strip_clean, B.
Qed.

Lemma NoteUpdate_title_field_str (s : str) :
  NoteUpdate.title_field (Some (JStr s)) =
  if blank s
  then inl [ErrorDetail F_title (value_error "title must be a non-empty string when provided")]
  else inr (Some (strip s)).
Proof.
  unfold NoteUpdate.title_field, NoteUpdate.validate_title_if_present.
  rewrite truthy_strip_blank. destruct (blank s); reflexivity.
Qed.

Lemma NoteUpdate_validated (b : body) (p : NoteUpdate.t) :
  NoteUpdate.model_validate b = inr p ->
  forall t, NoteUpdate.title p = Some t -> clean t.
Proof.
  unfold NoteUpdate.model_validate.
  destruct (body_title b) as [[|s|]|].
  - simpl. destruct (NoteBase.content_field _); [discriminate|].
    intros [= <-] t. discriminate.
  - rewrite NoteUpdate_title_field_str. destruct (blank s) eqn:B;
      destruct (NoteBase.content_field _); try discriminate.
    intros [= <-] t [= <-]. apply strip_clean, B.
  - simpl. destruct (NoteBase.content_field _); discriminate.
  - simpl. destruct (NoteBase.content_field _); [discriminate|].
    intros [= <-] t. discriminate.
Qed.

Lemma Note_new_blank (d : Note.data) :
  blank (Note.d_title d) = true ->
  Note.new d =
  Raise (ValidationError [ErrorDetail F_title (value_error "title must be a non-empty string")]).
Proof. intros B. unfold Note.new. rewrite (validate_title_blank _ B). reflexivity. Qed.

Lemma Note_new_non_blank (d : Note.data) :
  blank (Note.d_title d) = false ->
  Note.new d =
  Ok (Note.Build (Note.d_id d) (strip (Note.d_title d)) (Note.d_content d)
                 (Note.d_created_at d) (Note.d_updated_at d)).
Proof. intros B. unfold Note.new. rewrite (validate_title_non_blank _ B). reflexivity. Qed.

Lemma Note_new_clean (d : Note.data) :
  clean (Note.d_title d) ->
  Note.new d =
  Ok (Note.Build (Note.d_id d) (Note.d_title d) (Note.d_content d)
                 (Note.d_created_at d) (Note.d_updated_at d)).
Proof. intros [S B]. rewrite (Note_new_non_blank _ B), S. reflexivity. Qed.

(** Whatever [Note(...)] returns has the given id and timestamps, the
    stripped title, and a title that is not blank. *)
Lemma Note_new_Ok (d : Note.data) (n : Note.t) :
  Note.new d = Ok n ->
  n = Note.Build (Note.d_id d) (strip (Note.d_title d)) (Note.d_content d)
                 (Note.d_created_at d) (Note.d_updated_at d)
  /\ blank (Note.title n) = false.
Proof.
  destruct (blank (Note.d_title d)) eqn:B.
  - rewrite (Note_new_blank _ B). discriminate.
  - rewrite (Note_new_non_blank _ B). intros [= <-]. split; [reflexivity|].
    simpl. apply strip_clean, B.
Qed.

End Validators.

(** ** The methods as equations *)

Section Methods.

Implicit Types (st : store) (now : datetime) (uuid note_id : UUID).

Lemma create_eq now uuid p st :
  create now uuid p st =
  match Note.new (Note.Data uuid (NoteCreate.title p) (NoteCreate.content p) now now) with
  | Ok n => (Ok n, <[Note.id n := n]> st)
  | Raise e => (Raise e, st)
  end.
Proof. unfold create, mbind, M_bind, bind, lift. destruct (Note.new _); reflexivity. Qed.

Lemma get_eq note_id st :
  get note_id st =
  match st !! note_id with
  | Some n => (Ok n, st)
  | None => (Raise (KeyError "not_found"), st)
  end.
Proof. unfold get, mbind, M_bind, bind, store_get. destruct (st !! note_id); reflexivity. Qed.

Lemma delete_eq note_id st :
  NotesService.delete note_id st =
  match st !! note_id with
  | Some _ => (Ok tt, base.delete note_id st)
  | None => (Raise (KeyError "not_found"), st)
  end.
Proof.
  unfold NotesService.delete, mbind, M_bind, bind, store_contains, store_del.
  case_bool_decide as H; simpl.
  - destruct H as [n ->]. reflexivity.
  - destruct (st !! note_id) eqn:E; [exfalso; apply H; eauto | reflexivity].
Qed.

Lemma update_eq now note_id p st :
  update now note_id p st =
  match st !! note_id with
  | None => (Raise (KeyError "not_found"), st)
  | Some n =>
      match Note.new (update_data now p n) with
      | Ok u => (Ok u, <[note_id := u]> st)
      | Raise e => (Raise e, st)
      end
  end.
Proof.
  unfold update, mbind, M_bind, bind, store_get, lift, update_data.
  destruct (st !! note_id) as [n|]; [|reflexivity].
  destruct p as [[ti|] [co|]]; simpl; destruct (Note.new _); reflexivity.
Qed.

Lemma list_eq st : list_ st = (Ok (map snd (map_to_list st)), st).
Proof. reflexivity. Qed.

Lemma update_clean now note_id p st n :
  st !! note_id = Some n ->
  clean (default (Note.title n) (NoteUpdate.title p)) ->
  update now note_id p st = (Ok (merged now p n), <[note_id := merged now p n]> st).
Proof.
  intros L C. rewrite update_eq, L, Note_new_clean by exact C. reflexivity.
Qed.

End Methods.

(** ** Invariants of reachable stores *)

Section Invariants.

Implicit Types (st : store) (o : op).

Lemma step_create now uuid p st :
  step (Create now uuid p) st =
  match Note.new (Note.Data uuid (NoteCreate.title p) (NoteCreate.content p) now now) with
  | Ok n => <[Note.id n := n]> st
  | Raise _ => st
  end.
Proof. unfold step, exec. rewrite create_eq. destruct (Note.new _); reflexivity. Qed.

Lemma step_update now note_id p st :
  step (Update now note_id p) st =
  match st !! note_id with
  | None => st
  | Some n =>
      match Note.new (update_data now p n) with
      | Ok u => <[note_id := u]> st
      | Raise _ => st
      end
  end.
Proof.
  unfold step, exec. rewrite update_eq.
  destruct (st !! note_id); [destruct (Note.new _)|]; reflexivity.
Qed.

Lemma step_delete note_id st : step (Delete note_id) st = base.delete note_id st.
Proof.
  unfold step, exec. rewrite delete_eq.
  destruct (st !! note_id) eqn:E; simpl; [reflexivity|].
  symmetry. apply delete_id. exact E.
Qed.

Lemma step_get note_id st : step (Get note_id) st = st.
Proof. unfold step, exec. rewrite get_eq. destruct (st !! note_id); reflexivity. Qed.

Lemma step_list st : step List st = st.
Proof. reflexivity. Qed.

Lemma reachable_run ops st : reachable st -> reachable (run ops st).
Proof.
  revert st. induction ops as [|o ops IH]; intros st R; simpl; [exact R|].
  apply IH. constructor. exact R.
Qed.

(** A property of stores that holds initially and is kept by every method
    holds in every reachable store. *)
Lemma reachable_ind_inv (P : store -> Prop) :
  P init -> (forall o st, P st -> P (step o st)) ->
  forall st, reachable st -> P st.
Proof. intros H0 HS st R. induction R; auto. Qed.

Lemma titles_clean_step o st : titles_clean st -> titles_clean (step o st).
Proof.
  intros I. destruct o as [now uuid p| |note_id|now note_id p|note_id].
  - rewrite step_create. destruct (Note.new _) as [n|e] eqn:N; [|exact I].
    apply Note_new_Ok in N as [-> B]. simpl in *.
    intros k m. rewrite lookup_insert. case_decide; [|apply I].
    intros [= <-]. simpl. split; [apply strip_idem | exact B].
  - exact I.
  - rewrite step_get. exact I.
  - rewrite step_update. destruct (st !! note_id) as [n|] eqn:L; [|exact I].
    destruct (Note.new _) as [u|e] eqn:N; [|exact I].
    apply Note_new_Ok in N as [-> B]. simpl in *.
    intros k m. rewrite lookup_insert. case_decide; [|apply I].
    intros [= <-]. simpl. split; [apply strip_idem | exact B].
  - rewrite step_delete. intros k m L.
    apply lookup_delete_Some in L as [_ L]. exact (I k m L).
Qed.

Lemma titles_clean_init : titles_clean init.
Proof. intros k n L. unfold init in L. rewrite lookup_empty in L. discriminate. Qed.

Lemma titles_clean_reachable st : reachable st -> titles_clean st.
Proof. apply reachable_ind_inv; [apply titles_clean_init | apply titles_clean_step]. Qed.

Lemma keyed_by_id_step o st : keyed_by_id st -> keyed_by_id (step o st).
Proof.
  intros I. destruct o as [now uuid p| |note_id|now note_id p|note_id].
  - rewrite step_create. destruct (Note.new _) as [n|e] eqn:N; [|exact I].
    intros k m. rewrite lookup_insert. case_decide; [|apply I].
    intros [= <-]. congruence.
  - exact I.
  - rewrite step_get. exact I.
  - rewrite step_update. destruct (st !! note_id) as [n|] eqn:L; [|exact I].
    destruct (Note.new _) as [u|e] eqn:N; [|exact I].
    apply Note_new_Ok in N as [-> _]. simpl.
    intros k m. rewrite lookup_insert. case_decide; [|apply I].
    intros [= <-]. simpl. subst k. exact (I _ _ L).
  - rewrite step_delete. intros k m L.
    apply lookup_delete_Some in L as [_ L]. exact (I k m L).
Qed.

Lemma keyed_by_id_reachable st : reachable st -> keyed_by_id st.
Proof.
  apply reachable_ind_inv; [|apply keyed_by_id_step].
  intros k n L. unfold init in L. rewrite lookup_empty in L. discriminate.
Qed.

(** The handlers only ever move the store along service steps. *)
Lemma handle_reachable (r : request) st : reachable st -> reachable (snd (handle r st)).
Proof.
  intros R.
  destruct r as [|now uuid b| |[note_id|]|now [note_id|] b|[note_id|]]; simpl; try exact R.
  - unfold create_note. destruct (NoteCreate.model_validate b) as [errs|p]; [exact R|].
    pose proof (reachable_step (Create now uuid p) st R) as R'.
    unfold step, exec in R'. destruct (create now uuid p st) as [[n|e] st']; exact R'.
  - unfold get_note. rewrite get_eq. destruct (st !! note_id); exact R.
  - unfold update_note. destruct (NoteUpdate.model_validate b) as [errs|p]; [exact R|].
    pose proof (reachable_step (Update now note_id p) st R) as R'.
    unfold step, exec in R'.
    destruct (update now note_id p st) as [[n|[m|errs]] st']; exact R'.
  - unfold delete_note.
    pose proof (reachable_step (Delete note_id) st R) as R'.
    unfold step, exec in R'.
    destruct (NotesService.delete note_id st) as [[n|[m|errs]] st']; exact R'.
Qed.

End Invariants.

(** ** Single operations *)

Section Operations.

Implicit Types (st : store) (now : datetime) (uuid note_id : UUID).

(** C1. In every store the service can be in, [update] with a validated
    payload raises [KeyError("not_found")] and changes nothing when no note
    has the id; otherwise it stores and returns a note whose title and
    content are the payload's where the payload supplies them and the old
    ones where it does not, whose id and [created_at] are the old ones, and
    whose [updated_at] is the clock reading, whichever fields were supplied. *)
Theorem update_overwrites_supplied_fields st now note_id b payload :
  reachable st ->
  NoteUpdate.model_validate b = inr payload ->
  match st !! note_id with
  | None => update now note_id payload st = (Raise (KeyError "not_found"), st)
  | Some n =>
      exists u,
        update now note_id payload st = (Ok u, <[note_id := u]> st)
        /\ Note.id u = Note.id n
        /\ Note.title u = match NoteUpdate.title payload with
                          | Some ti => ti
                          | None => Note.title n
                          end
        /\ Note.content u = match NoteUpdate.content payload with
                            | Some co => Some co
                            | None => Note.content n
                            end
        /\ Note.created_at u = Note.created_at n
        /\ Note.updated_at u = now
  end.
Proof.
  intros R V. destruct (st !! note_id) as [n|] eqn:L.
  - exists (merged now payload n). split.
    + apply update_clean; [exact L|].
      destruct (NoteUpdate.title payload) as [ti|] eqn:T; simpl.
      * exact (NoteUpdate_validated _ _ V _ T).
      * exact (titles_clean_reachable _ R _ _ L).
    + unfold merged; simpl. destruct (NoteUpdate.title payload); auto.
  - rewrite update_eq, L. reflexivity.
Qed.

(** C2, as amended. For a note present in a reachable store, after a
    successful [update] whose payload was validated from a body carrying
    only the title [X], [get] returns the note with the stripped [X] as
    title, with content, id and [created_at] as before, and with
    [updated_at] equal to the clock reading of the update; it is later than
    the previous [updated_at] exactly when that reading is. *)
Theorem update_title_then_get st now note_id X payload n u st' :
  reachable st ->
  st !! note_id = Some n ->
  NoteUpdate.model_validate (Body (Some (JStr X)) None) = inr payload ->
  update now note_id payload st = (Ok u, st') ->
  get note_id st' = (Ok u, st')
  /\ Note.title u = strip X
  /\ Note.content u = Note.content n
  /\ Note.id u = Note.id n
  /\ Note.created_at u = Note.created_at n
  /\ Note.updated_at u = now
  /\ (Note.updated_at n < Note.updated_at u <-> Note.updated_at n < now).
Proof.
  intros R L V U.
  assert (P : payload = NoteUpdate.Build (Some (strip X)) None /\ blank X = false).
  { unfold NoteUpdate.model_validate in V. simpl body_title in V.
    rewrite NoteUpdate_title_field_str in V. simpl in V.
    destruct (blank X); [discriminate|]. injection V as <-. auto. }
  destruct P as [-> B].
  rewrite (update_clean now note_id _ st n L) in U
    by (simpl; apply strip_clean, B).
  injection U as <- <-. rewrite get_eq, lookup_insert_eq.
  unfold merged; simpl. repeat split; auto.
Qed.


(** C5. [delete] raises [KeyError("not_found")] and changes nothing when
    no note has the id; otherwise it returns normally and removes exactly
    that entry, after which [get] on the id raises [KeyError("not_found")]
    and so does a second [delete]. *)
Theorem delete_removes_entry st note_id :
  match st !! note_id with
  | None => NotesService.delete note_id st = (Raise (KeyError "not_found"), st)
  | Some _ =>
      let st' := base.delete note_id st in
      NotesService.delete note_id st = (Ok tt, st')
      /\ get note_id st' = (Raise (KeyError "not_found"), st')
      /\ NotesService.delete note_id st' = (Raise (KeyError "not_found"), st')
      /\ get_note note_id st' = (not_found, st')
      /\ delete_note note_id st' = (not_found, st')
  end.
Proof.
  rewrite delete_eq. destruct (st !! note_id) as [n|] eqn:L; [|reflexivity].
  simpl. unfold get_note, delete_note.
  rewrite delete_eq, get_eq, lookup_delete_eq. auto.
Qed.

(** C8. For a payload validated from a request body, [create] returns a
    note carrying the drawn id, the payload's title and content and the
    clock reading in both timestamps, and [get] on the returned id then
    succeeds with that very note. *)
Theorem create_then_get st now uuid b payload :
  NoteCreate.model_validate b = inr payload ->
  exists n st',
    create now uuid payload st = (Ok n, st')
    /\ n = Note.Build uuid (NoteCreate.title payload) (NoteCreate.content payload) now now
    /\ get (Note.id n) st' = (Ok n, st').
Proof.
  intros V. rewrite create_eq.
  rewrite Note_new_clean by (simpl; exact (NoteCreate_validated _ _ V)).
  simpl. eexists _, _. split; [reflexivity|]. split; [reflexivity|].
  rewrite get_eq. simpl. rewrite lookup_insert_eq. reflexivity.
Qed.

(** C10. On a note present in the store, [PUT /notes/{id}] with
    [content] set to [null] validates to the same payload, answers the same
    and leaves the same store as the request without the [content] key; the
    stored content is the one from before. *)
Theorem update_null_content_is_absent st now note_id (t : option json) n :
  st !! note_id = Some n ->
  NoteUpdate.model_validate (Body t (Some JNull)) = NoteUpdate.model_validate (Body t None)
  /\ update_note now note_id (Body t (Some JNull)) st = update_note now note_id (Body t None) st
  /\ exists n', snd (update_note now note_id (Body t (Some JNull)) st) !! note_id = Some n'
                /\ Note.content n' = Note.content n.
Proof.
  intros L.
  assert (E : NoteUpdate.model_validate (Body t (Some JNull))
              = NoteUpdate.model_validate (Body t None)) by reflexivity.
  split; [exact E|]. split; [unfold update_note; rewrite E; reflexivity|].
  unfold update_note, NoteUpdate.model_validate. simpl.
  destruct (NoteUpdate.title_field t) as [errs|ti]; simpl; [eauto|].
  rewrite update_eq, L.
  destruct (Note.new _) as [u|e] eqn:N; simpl.
  - apply Note_new_Ok in N as [-> _]. simpl.
    rewrite lookup_insert_eq. eauto.
  - destruct e; simpl; eauto.
Qed.

End Operations.

(** ** Runs *)

Section Runs.

Implicit Types (st : store) (o : op) (ops : list op).


(** A method cannot bring an id into the store unless [create] drew it. *)
Lemma step_lookup_None o st k :
  st !! k = None -> k ∉ uuid4_draws [o] -> step o st !! k = None.
Proof.
  intros L D. destruct o as [now uuid p| |note_id|now note_id p|note_id].
  - rewrite step_create. destruct (Note.new _) as [n|e] eqn:N; [|exact L].
    apply Note_new_Ok in N as [-> _]. simpl.
    rewrite lookup_insert_ne; [exact L|].
    intros ->. apply D. simpl. left.
  - exact L.
  - rewrite step_get. exact L.
  - rewrite step_update. destruct (st !! note_id) as [n|] eqn:E; [|exact L].
    destruct (Note.new _); [|exact L].
    rewrite lookup_insert_ne; [exact L|]. congruence.
  - rewrite step_delete. apply lookup_delete_None. auto.
Qed.

Lemma uuid4_draws_cons o ops : uuid4_draws (o :: ops) = uuid4_draws [o] ++ uuid4_draws ops.
Proof. destruct o; reflexivity. Qed.

(** Once absent, an id stays absent for as long as [uuid4] does not draw it. *)
Lemma run_lookup_None ops st k :
  st !! k = None -> k ∉ uuid4_draws ops -> run ops st !! k = None.
Proof.
  revert st. induction ops as [|o ops IH]; intros st L D; simpl; [exact L|].
  rewrite uuid4_draws_cons in D. apply not_elem_of_app in D as [D1 D2].
  apply IH; [|exact D2]. apply step_lookup_None; assumption.
Qed.




(** The ids assigned by a run, split at any point of it. *)
Lemma assigned_ids_app ops1 ops2 st :
  assigned_ids (ops1 ++ ops2) st
  = assigned_ids ops1 st ++ assigned_ids ops2 (run ops1 st).
Proof.
  revert st. induction ops1 as [|o ops1 IH]; intros st; [reflexivity|].
  rewrite <- app_comm_cons. cbn [assigned_ids run].
  destruct o as [now uuid p| |note_id|now note_id p|note_id];
    try (destruct (fst (exec _ st)) as [[?|?]|?|?]); rewrite IH; reflexivity.
Qed.



Lemma creates_fresh_of_distinct ops st :
  NoDup (uuid4_draws ops) ->
  (forall u, u ∈ uuid4_draws ops -> st !! u = None) ->
  creates_fresh ops st.
Proof.
  revert st. induction ops as [|o ops IH]; intros st ND F; simpl; [exact I|].
  rewrite uuid4_draws_cons in ND, F.
  apply NoDup_app in ND as (ND1 & Dis & ND2).
  split.
  - destruct o; try exact I. apply F. simpl. left.
  - apply IH; [exact ND2|]. intros u Hu.
    apply step_lookup_None.
    + apply F, elem_of_app. right. exact Hu.
    + intros Hu1. exact (Dis u Hu1 Hu).
Qed.

(** The size of the store along a run in which creations are fresh and
    every [Create] and [Delete] returns normally. *)
Lemma size_run ops st :
  creates_fresh ops st ->
  creates_deletes_succeed ops st = true ->
  (size (run ops st) + count is_delete ops = size st + count is_create ops)%nat.
Proof.
  revert st. induction ops as [|o ops IH]; intros st Fr Su; simpl.
  - unfold count. simpl. lia.
  - simpl in Fr, Su. destruct Fr as [Fo Fr]. apply andb_true_iff in Su as [So Su].
    specialize (IH _ Fr Su). unfold count in *. simpl.
    destruct o as [now uuid p| |note_id|now note_id p|note_id]; simpl.
    + rewrite step_create in IH |- *. unfold exec in So. rewrite create_eq in So.
      destruct (Note.new _) as [n|e] eqn:N; [|discriminate].
      apply Note_new_Ok in N as [-> _]. simpl in *.
      rewrite map_size_insert_None in IH by exact Fo. lia.
    + exact IH.
    + rewrite step_get in IH |- *. exact IH.
    + rewrite step_update in IH |- *.
      destruct (st !! note_id) as [n|] eqn:L; [|exact IH].
      destruct (Note.new _) as [u|e]; [|exact IH].
      rewrite map_size_insert_Some in IH by eauto. exact IH.
    + rewrite step_delete in IH |- *. unfold exec in So. rewrite delete_eq in So.
      destruct (st !! note_id) as [n|] eqn:L; [|discriminate].
      assert (Hs : size st = S (size (base.delete note_id st))).
      { rewrite <- (insert_delete_id st note_id n L) at 1.
        apply map_size_insert_None, lookup_delete_eq. }
      lia.
Qed.

(** Timestamps along a run whose clock readings start at [t] or later and
    never decrease. *)
Lemma timestamps_run ops st t :
  (forall k n, st !! k = Some n ->
               Note.created_at n <= Note.updated_at n /\ Note.created_at n <= t) ->
  nondecreasing_from t (clock_reads ops) ->
  timestamps_ordered (run ops st).
Proof.
  revert st t. induction ops as [|o ops IH]; intros st t Inv Mono; simpl.
  - intros k n L. exact (proj1 (Inv k n L)).
  - destruct o as [now uuid p| |note_id|now note_id p|note_id]; simpl in Mono.
    + destruct Mono as [Le Mono]. apply (IH _ now); [|exact Mono].
      rewrite step_create. destruct (Note.new _) as [n|e] eqn:N.
      * apply Note_new_Ok in N as [-> _]. simpl.
        intros k m. rewrite lookup_insert. case_decide.
        -- intros [= <-]. simpl. lia.
        -- intros L. destruct (Inv k m L). lia.
      * intros k m L. destruct (Inv k m L). lia.
    + apply (IH _ t); assumption.
    + rewrite step_get. apply (IH _ t); assumption.
    + destruct Mono as [Le Mono]. apply (IH _ now); [|exact Mono].
      rewrite step_update.
      assert (W : forall k m, st !! k = Some m ->
                  Note.created_at m <= Note.updated_at m /\ Note.created_at m <= now).
      { intros k m L. destruct (Inv k m L). lia. }
      destruct (st !! note_id) as [n|] eqn:L; [|exact W].
      destruct (Note.new _) as [u|e] eqn:N; [|exact W].
      apply Note_new_Ok in N as [-> _]. simpl.
      intros k m. rewrite lookup_insert. case_decide; [|apply W].
      intros [= <-]. simpl. destruct (Inv _ _ L). lia.
    + apply (IH _ t); [|exact Mono]. rewrite step_delete.
      intros k m L. apply lookup_delete_Some in L as [_ L]. exact (Inv k m L).
Qed.

End Runs.

(** ** Properties of runs *)

Section RunProperties.

Implicit Types (st : store) (o : op) (ops : list op).

Lemma titles_non_blank_step o st : titles_non_blank st -> titles_non_blank (step o st).
Proof.
  intros I. destruct o as [now uuid p| |note_id|now note_id p|note_id].
  - rewrite step_create. destruct (Note.new _) as [n|e] eqn:N; [|exact I].
    apply Note_new_Ok in N as [E B].
    intros k m. rewrite lookup_insert. case_decide; [|apply I].
    intros [= <-]. exact B.
  - exact I.
  - rewrite step_get. exact I.
  - rewrite step_update. destruct (st !! note_id) as [n|] eqn:L; [|exact I].
    destruct (Note.new _) as [u|e] eqn:N; [|exact I].
    apply Note_new_Ok in N as [E B].
    intros k m. rewrite lookup_insert. case_decide; [|apply I].
    intros [= <-]. exact B.
  - rewrite step_delete. intros k m L.
    apply lookup_delete_Some in L as [_ L]. exact (I k m L).
Qed.

Lemma titles_non_blank_init : titles_non_blank init.
Proof. intros k n L. unfold init in L. rewrite lookup_empty in L. discriminate. Qed.


(** C6. In every store the service can be in, no note has an empty or
    whitespace-only title, and the same holds after any further method
    call. *)
Theorem titles_never_blank st :
  reachable st ->
  titles_non_blank st /\ forall o, titles_non_blank (step o st).
Proof.
  intros R.
  assert (I : titles_non_blank st).
  { revert st R. apply reachable_ind_inv;
      [apply titles_non_blank_init | apply titles_non_blank_step]. }
  split; [exact I|]. intros o. apply titles_non_blank_step, I.
Qed.

(** C7, as amended. In a run from the empty store whose clock readings
    never decrease, every stored note has [created_at <= updated_at]; a
    [create] that returns a note sets both timestamps to its clock reading. *)
Theorem timestamps_ordered_when_clock_monotone ops now uuid payload :
  nondecreasing (clock_reads ops) ->
  timestamps_ordered (run ops init)
  /\ match create now uuid payload (run ops init) with
     | (Ok n, _) => Note.created_at n = now /\ Note.updated_at n = now
     | (Raise _, _) => True
     end.
Proof.
  intros Mono. split.
  - destruct (clock_reads ops) as [|t rest] eqn:E.
    + apply (timestamps_run ops init 0).
      * intros k n L. unfold init in L. rewrite lookup_empty in L. discriminate.
      * rewrite E. exact I.
    + apply (timestamps_run ops init t).
      * intros k n L. unfold init in L. rewrite lookup_empty in L. discriminate.
      * rewrite E. simpl. split; [lia | exact Mono].
  - rewrite create_eq. destruct (Note.new _) as [n|e] eqn:N; [|exact I].
    apply Note_new_Ok in N as [-> _]. simpl. auto.
Qed.

(** C9. Runs are taken as the service can produce them: [uuid4] returns
    no value twice, and none that is the id of a note already stored. From
    any store, along any such run in which every [create] and every [delete]
    returns normally, [list] ends up returning exactly as many notes as
    before, plus the number of creates, minus the number of deletes. *)
Theorem list_grows_by_creates_minus_deletes ops st :
  NoDup (uuid4_draws ops) ->
  Forall (fun u => st !! u = None) (uuid4_draws ops) ->
  creates_deletes_succeed ops st = true ->
  exists l l',
    list_ st = (Ok l, st)
    /\ list_ (run ops st) = (Ok l', run ops st)
    /\ Z.of_nat (length l')
       = Z.of_nat (length l) + Z.of_nat (count is_create ops) - Z.of_nat (count is_delete ops).
Proof.
  intros ND F Su. eexists _, _. split; [apply list_eq|]. split; [apply list_eq|].
  rewrite !length_map, !length_map_to_list.
  assert (Fr : creates_fresh ops st).
  { apply creates_fresh_of_distinct; [exact ND|]. apply Forall_forall. exact F. }
  pose proof (size_run ops st Fr Su). lia.
Qed.

End RunProperties.

(** ** Closed instances *)

Section Instances.

Lemma st_one_lookup : st_one !! uuid_a = Some n_one.
Proof. reflexivity. Qed.

Lemma st_one_reachable : reachable st_one.
Proof. apply reachable_run, reachable_init. Qed.

(** An update of the title of the note of [st_one], with a validated
    payload. *)
Lemma update_overwrites_supplied_fields_witness :
  exists u,
    update 200 uuid_a (NoteUpdate.Build (Some s_X) None) st_one
    = (Ok u, <[uuid_a := u]> st_one)
    /\ Note.id u = Note.id n_one
    /\ Note.title u = s_X
    /\ Note.content u = Note.content n_one
    /\ Note.created_at u = Note.created_at n_one
    /\ Note.updated_at u = 200.
Proof.
  pose proof (update_overwrites_supplied_fields st_one 200 uuid_a
                (Body (Some (JStr s_padded_X)) None)
                (NoteUpdate.Build (Some s_X) None)
                st_one_reachable eq_refl) as H.
  rewrite st_one_lookup in H. exact H.
Defined.

(** C2, refuted as stated: the note of [st_one] was created at clock
    reading 100; an update sent with the title [" X "] at the same reading
    succeeds, and [get] then returns the title ["X"] and an [updated_at]
    that equals the previous one instead of being later. *)
Lemma update_same_reading_not_later :
  st_one !! uuid_a = Some n_one
  /\ NoteUpdate.model_validate (Body (Some (JStr s_padded_X)) None)
     = inr (NoteUpdate.Build (Some s_X) None)
  /\ update 100 uuid_a (NoteUpdate.Build (Some s_X) None) st_one
     = (Ok n_retitled, <[uuid_a := n_retitled]> st_one)
  /\ get uuid_a (<[uuid_a := n_retitled]> st_one)
     = (Ok n_retitled, <[uuid_a := n_retitled]> st_one)
  /\ Note.title n_retitled <> s_padded_X
  /\ Note.updated_at n_retitled = Note.updated_at n_one
  /\ ~ Note.updated_at n_one < Note.updated_at n_retitled.
Proof.
  split; [reflexivity|]. split; [reflexivity|]. split; [reflexivity|].
  split; [reflexivity|]. split; [discriminate|]. split; [reflexivity|].
  simpl. lia.
Qed.

Lemma update_title_then_get_witness :
  get uuid_a (<[uuid_a := n_retitled]> st_one) = (Ok n_retitled, <[uuid_a := n_retitled]> st_one)
  /\ Note.title n_retitled = strip s_padded_X
  /\ Note.content n_retitled = Note.content n_one
  /\ Note.id n_retitled = Note.id n_one
  /\ Note.created_at n_retitled = Note.created_at n_one
  /\ Note.updated_at n_retitled = 100
  /\ (Note.updated_at n_one < Note.updated_at n_retitled <-> Note.updated_at n_one < 100).
Proof.
  exact (update_title_then_get st_one 100 uuid_a s_padded_X
           (NoteUpdate.Build (Some s_X) None) n_one n_retitled
           (<[uuid_a := n_retitled]> st_one)
           st_one_reachable eq_refl eq_refl eq_refl).
Defined.



Lemma titles_never_blank_witness :
  reachable st_one
  /\ titles_non_blank st_one
  /\ forall o, titles_non_blank (step o st_one).
Proof.
  split; [exact st_one_reachable|]. exact (titles_never_blank st_one st_one_reachable).
Defined.

(** C7, refuted as stated: the clock read 200 when the note was created and
    100 when it was updated; the stored note is then older in [updated_at]
    than in [created_at]. *)
Lemma clock_back_updated_before_created :
  reachable (run ops_clock_back init)
  /\ run ops_clock_back init !! uuid_a = Some n_backdated
  /\ Note.updated_at n_backdated < Note.created_at n_backdated.
Proof.
  split; [apply reachable_run, reachable_init|]. split; reflexivity.
Qed.

Lemma timestamps_ordered_when_clock_monotone_witness :
  nondecreasing (clock_reads ops_two_notes)
  /\ timestamps_ordered (run ops_two_notes init)
  /\ match create 400 uuid_b p_ab (run ops_two_notes init) with
     | (Ok n, _) => Note.created_at n = 400 /\ Note.updated_at n = 400
     | (Raise _, _) => True
     end.
Proof.
  assert (M : nondecreasing (clock_reads ops_two_notes)).
  { simpl. lia. }
  split; [exact M|].
  exact (timestamps_ordered_when_clock_monotone ops_two_notes 400 uuid_b p_ab M).
Defined.

Lemma create_then_get_witness :
  NoteCreate.model_validate (Body (Some (JStr s_padded_X)) (Some JNull))
  = inr (NoteCreate.Build s_X None)
  /\ exists n st',
      create 100 uuid_b (NoteCreate.Build s_X None) st_one = (Ok n, st')
      /\ n = Note.Build uuid_b s_X None 100 100
      /\ get (Note.id n) st' = (Ok n, st').
Proof.
  split; [reflexivity|].
  exact (create_then_get st_one 100 uuid_b (Body (Some (JStr s_padded_X)) (Some JNull))
           (NoteCreate.Build s_X None) eq_refl).
Defined.

Lemma list_grows_by_creates_minus_deletes_witness :
  NoDup (uuid4_draws (tail ops_two_notes))
  /\ Forall (fun u => st_one !! u = None) (uuid4_draws (tail ops_two_notes))
  /\ creates_deletes_succeed (tail ops_two_notes) st_one = true
  /\ exists l l',
      list_ st_one = (Ok l, st_one)
      /\ list_ (run (tail ops_two_notes) st_one) = (Ok l', run (tail ops_two_notes) st_one)
      /\ Z.of_nat (length l')
         = Z.of_nat (length l) + Z.of_nat (count is_create (tail ops_two_notes))
           - Z.of_nat (count is_delete (tail ops_two_notes)).
Proof.
  assert (ND : NoDup (uuid4_draws (tail ops_two_notes))).
  { apply (bool_decide_unpack _). vm_compute. exact I. }
  assert (F : Forall (fun u => st_one !! u = None) (uuid4_draws (tail ops_two_notes))).
  { repeat constructor. }
  split; [exact ND|]. split; [exact F|]. split; [reflexivity|].
  exact (list_grows_by_creates_minus_deletes (tail ops_two_notes) st_one ND F eq_refl).
Defined.

Lemma update_null_content_is_absent_witness :
  st_one !! uuid_a = Some n_one
  /\ NoteUpdate.model_validate (Body (Some (JStr s_X)) (Some JNull))
     = NoteUpdate.model_validate (Body (Some (JStr s_X)) None)
  /\ update_note 200 uuid_a (Body (Some (JStr s_X)) (Some JNull)) st_one
     = update_note 200 uuid_a (Body (Some (JStr s_X)) None) st_one
  /\ exists n', snd (update_note 200 uuid_a (Body (Some (JStr s_X)) (Some JNull)) st_one)
                  !! uuid_a = Some n'
                /\ Note.content n' = Note.content n_one.
Proof.
  split; [reflexivity|].
  exact (update_null_content_is_absent st_one 200 uuid_a (Some (JStr s_X)) n_one eq_refl).
Defined.

End Instances.

(** ** What the title validators accept *)

Section TitleValidation.

(** [rstrip] cuts a blank suffix off. *)
Lemma rstrip_prefix (s : str) :
  exists q, s = rstrip s ++ q /\ blank q = true.
Proof.
  destruct (lstrip_suffix (rev s)) as [p [Hp Hb]].
  exists (rev p). split.
  - unfold rstrip. rewrite <- rev_app_distr, <- Hp, rev_involutive. reflexivity.
  - rewrite blank_rev. exact Hb.
Qed.

(** A non-empty [rstrip] result ends with a non-whitespace character. *)
Lemma rstrip_last (s : str) :
  rstrip s <> [] -> exists r c, rstrip s = r ++ [c] /\ isspace c = false.
Proof.
  unfold rstrip. destruct (lstrip (rev s)) as [|c r] eqn:E; [simpl; congruence|].
  intros _. exists (rev r), c. split; [reflexivity|].
  exact (lstrip_head _ _ _ E).
Qed.

(** X1. A title the validator accepts is the input with a run of leading
    and a run of trailing whitespace cut off and nothing else changed: it
    begins and ends with a character that is not whitespace. *)
Theorem validated_title_trims_input (s t : str) :
  NoteBase.validate_title_non_empty s = inr t ->
  exists p q,
    s = p ++ t ++ q
    /\ blank p = true
    /\ blank q = true
    /\ (exists c r, t = c :: r /\ isspace c = false)
    /\ (exists r c, t = r ++ [c] /\ isspace c = false).
Proof.
  intros V. apply validate_title_inr in V as [-> B].
  destruct (lstrip_suffix s) as [p [Hp Bp]].
  destruct (rstrip_prefix (lstrip s)) as [q [Hq Bq]].
  assert (NE : strip s <> []).
  { intros E. apply strip_nil_blank in E. congruence. }
  exists p, q. split; [|split; [exact Bp|split; [exact Bq|split]]].
  - unfold strip. rewrite <- Hq. exact Hp.
  - destruct (strip s) as [|c r] eqn:E; [congruence|].
    exists c, r. split; [reflexivity|]. exact (strip_head _ _ _ E).
  - apply rstrip_last. exact NE.
Qed.

(** X2. The validator of [NoteBase] raises its [ValueError] exactly on the
    titles all of whose characters are whitespace, the empty one included. *)
Theorem title_rejected_iff_blank (s : str) :
  NoteBase.validate_title_non_empty s = inl "title must be a non-empty string"%string
  <-> blank s = true.
Proof.
  split.
  - intros V. destruct (blank s) eqn:B; [reflexivity|].
    rewrite (validate_title_non_blank _ B) in V. discriminate.
  - apply validate_title_blank.
Qed.

(** X3. A note whose title the validator accepted is rebuilt unchanged from
    its own [model_dump]: validating the title again, under either
    validator, returns it as it is. *)
Theorem validated_note_rebuilds (s : str) (n : Note.t) :
  NoteBase.validate_title_non_empty s = inr (Note.title n) ->
  Note.new (Note.model_dump n) = Ok n
  /\ NoteBase.validate_title_non_empty (Note.title n) = inr (Note.title n)
  /\ NoteUpdate.validate_title_if_present (Some (Note.title n)) = inr (Some (Note.title n)).
Proof.
  intros V. apply validate_title_inr in V as [E B].
  pose proof (strip_clean _ B) as [S NB]. rewrite <- E in S, NB.
  split; [|split].
  - rewrite Note_new_clean by (split; assumption). destruct n; reflexivity.
  - rewrite (validate_title_non_blank _ NB), S. reflexivity.
  - unfold NoteUpdate.validate_title_if_present.
    rewrite truthy_strip_blank, NB, S. reflexivity.
Qed.

End TitleValidation.

(** ** What the routes answer *)

Section Routes.

Implicit Types (st : store) (now : datetime) (uuid note_id : UUID) (b : body).

(** The handler of [PUT /notes/{note_id}] on a store the service can be in. *)
Lemma update_note_eq st now note_id b :
  reachable st ->
  update_note now note_id b st =
  match NoteUpdate.model_validate b with
  | inl errs => (Response 422 (ErrorsBody errs), st)
  | inr payload =>
      match st !! note_id with
      | None => (Response 404 (DetailBody "Note not found"), st)
      | Some n => (note_response 200 (merged now payload n),
                   <[note_id := merged now payload n]> st)
      end
  end.
Proof.
  intros R. unfold update_note.
  destruct (NoteUpdate.model_validate b) as [errs|p] eqn:V; [reflexivity|].
  destruct (st !! note_id) as [n|] eqn:L.
  - rewrite (update_clean now note_id p st n L); [reflexivity|].
    destruct (NoteUpdate.title p) as [ti|] eqn:T; simpl.
    + exact (NoteUpdate_validated _ _ V _ T).
    + exact (titles_clean_reachable _ R _ _ L).
  - rewrite update_eq, L. reflexivity.
Qed.

(** The handler of [POST /notes] on a body that validates. *)
Lemma create_note_valid st now uuid b p :
  NoteCreate.model_validate b = inr p ->
  create_note now uuid b st =
  (note_response 201 (Note.Build uuid (NoteCreate.title p) (NoteCreate.content p) now now),
   <[uuid := Note.Build uuid (NoteCreate.title p) (NoteCreate.content p) now now]> st).
Proof.
  intros V. unfold create_note. rewrite V, create_eq.
  rewrite Note_new_clean by (simpl; exact (NoteCreate_validated _ _ V)).
  reflexivity.
Qed.

(** The notes [list] returns are the values of the store. *)
Lemma elem_of_values st (n : Note.t) :
  n ∈ map snd (map_to_list st) <-> exists k, st !! k = Some n.
Proof.
  change (map snd (map_to_list st)) with (snd <$> map_to_list st).
  rewrite list_elem_of_fmap. split.
  - intros [[k m] [-> H]]. exists k. apply elem_of_map_to_list. exact H.
  - intros [k H]. exists (k, n). split; [reflexivity|]. apply elem_of_map_to_list. exact H.
Qed.

Lemma get_note_eq st note_id :
  get_note note_id st =
  match st !! note_id with
  | Some n => (note_response 200 n, st)
  | None => (not_found, st)
  end.
Proof. unfold get_note. rewrite get_eq. destruct (st !! note_id); reflexivity. Qed.

Lemma note_response_status (status : Z) (n : Note.t) :
  status_code (note_response status n) = if serializable n then status else 500.
Proof. unfold note_response. destruct (serializable n); reflexivity. Qed.

(** X4. [POST /notes] with a title that is not blank and a content that is
    absent, [null] or a string stores, under the drawn id, a note with the
    title stripped of surrounding whitespace, the content exactly as sent
    and both timestamps at the clock reading. The answer is 201 with that
    note when title and content can be encoded; when one of them holds a
    surrogate code point the note is stored all the same and the answer is
    500. *)
Theorem create_note_stores_stripped_title st now uuid (s : str) (c : option json) (co : option str) :
  blank s = false ->
  NoteBase.content_field c = inr co ->
  create_note now uuid (Body (Some (JStr s)) c) st
  = (if serializable (Note.Build uuid (strip s) co now now)
     then Response 201 (NoteBody (Note.Build uuid (strip s) co now now))
     else Response 500 (TextBody "Internal Server Error"),
     <[uuid := Note.Build uuid (strip s) co now now]> st).
Proof.
  intros B C. apply (create_note_valid st now uuid _ (NoteCreate.Build (strip s) co)).
  unfold NoteCreate.model_validate, NoteBase.title_field. simpl.
  rewrite (validate_title_non_blank _ B), C. reflexivity.
Qed.

(** X6. On a store the service can be in, for a body whose title and content
    are each absent, [null] or a string: [PUT /notes/{note_id}] answers 422
    and changes nothing when the body does not validate, whether or not the
    note exists; otherwise 404 and no change when no note has the id;
    otherwise the merged note replaces the old one, and the answer is 200
    with it when it can be encoded and 500 when its title or content holds a
    surrogate code point. *)
Theorem update_note_outcomes st now note_id b :
  reachable st ->
  body_title b <> Some JOther ->
  body_content b <> Some JOther ->
  match NoteUpdate.model_validate b, st !! note_id with
  | inl errs, _ => update_note now note_id b st = (Response 422 (ErrorsBody errs), st)
  | inr _, None => update_note now note_id b st = (Response 404 (DetailBody "Note not found"), st)
  | inr payload, Some n =>
      exists u,
        update_note now note_id b st
        = (if serializable u then Response 200 (NoteBody u)
           else Response 500 (TextBody "Internal Server Error"),
           <[note_id := u]> st)
        /\ Note.id u = Note.id n
        /\ Note.title u = default (Note.title n) (NoteUpdate.title payload)
        /\ Note.content u = match NoteUpdate.content payload with
                            | Some co => Some co
                            | None => Note.content n
                            end
        /\ Note.created_at u = Note.created_at n
        /\ Note.updated_at u = now
  end.
Proof.
  intros R _ _. rewrite (update_note_eq st now note_id b R).
  destruct (NoteUpdate.model_validate b) as [errs|p]; [reflexivity|].
  destruct (st !! note_id) as [n|]; [|reflexivity].
  exists (merged now p n). unfold merged; simpl. auto 10.
Qed.

Lemma forallb_false_ex {A} (g : A -> bool) (l : list A) :
  forallb g l = false -> exists x, x ∈ l /\ g x = false.
Proof.
  induction l as [|x l IH]; simpl; [discriminate|].
  destruct (g x) eqn:E; simpl.
  - intros H. destruct (IH H) as (y & Hy & Gy). exists y. split; [right; exact Hy | exact Gy].
  - intros _. exists x. split; [left | exact E].
Qed.

(** X7. [GET /notes] answers 500 exactly when [GET /notes/{id}] answers 500
    for some id, that is when a stored note has a title or content that
    cannot be encoded; otherwise it answers 200. It never changes the
    store. *)
Theorem list_notes_fails_iff_a_get_fails st :
  (status_code (fst (list_notes st)) = 500
   <-> exists k, status_code (fst (get_note k st)) = 500)
  /\ (status_code (fst (list_notes st)) = 200
      <-> forall k, status_code (fst (get_note k st)) <> 500)
  /\ snd (list_notes st) = st.
Proof.
  assert (G : forall k, status_code (fst (get_note k st)) = 500
                        <-> exists n, st !! k = Some n /\ serializable n = false).
  { intros k. rewrite get_note_eq. destruct (st !! k) as [n|]; simpl.
    - rewrite note_response_status. destruct (serializable n) eqn:S; simpl; split.
      + discriminate.
      + intros (m & [= <-] & H). congruence.
      + eauto.
      + reflexivity.
    - split; [discriminate | intros (m & H & _); discriminate]. }
  unfold list_notes. rewrite list_eq. unfold notes_response.
  destruct (forallb serializable (map snd (map_to_list st))) eqn:F; simpl.
  - rewrite forallb_forall in F.
    assert (Hk : forall k, status_code (fst (get_note k st)) <> 500).
    { intros k H. apply G in H as (n & L & S).
      rewrite F in S; [discriminate|].
      apply list_elem_of_In, elem_of_values. eauto. }
    split; [|split; [|reflexivity]].
    + split; [discriminate | intros [k H]; exfalso; exact (Hk k H)].
    + split; [intros _; exact Hk | reflexivity].
  - assert (Hex : exists k, status_code (fst (get_note k st)) = 500).
    { apply forallb_false_ex in F as (n & Hin & S).
      apply elem_of_values in Hin as [k L].
      exists k. apply G. eauto. }
    split; [|split; [|reflexivity]].
    + split; [intros _; exact Hex | reflexivity].
    + split; [discriminate|]. intros Hk. destruct Hex as [k H]. exfalso. exact (Hk k H).
Qed.

End Routes.


(** ** What a call leaves untouched *)

Section Frames.

Implicit Types (st : store) (now : datetime) (uuid note_id k : UUID) (o : op).

(** X8. A request that only reads, or one that is answered with a 4xx
    status, leaves the store exactly as it was. (A 5xx answer gives no such
    guarantee: a note that cannot be encoded is written before the answer
    fails.) *)
Theorem handle_error_or_read_keeps_store (r : request) st :
  is_read r = true \/ 400 <= status_code (fst (handle r st)) < 500 ->
  snd (handle r st) = st.
Proof.
  destruct r as [|now uuid b| |[note_id|]|now [note_id|] b|[note_id|]]; simpl;
    try reflexivity.
  - intros [H|H]; [discriminate|]. revert H. unfold create_note.
    destruct (NoteCreate.model_validate b) as [errs|p]; [reflexivity|].
    rewrite create_eq. destruct (Note.new _); simpl; [|reflexivity].
    rewrite note_response_status. destruct (serializable _); lia.
  - intros _. rewrite get_note_eq. destruct (st !! note_id); reflexivity.
  - intros [H|H]; [discriminate|]. revert H. unfold update_note.
    destruct (NoteUpdate.model_validate b) as [errs|p]; [reflexivity|].
    rewrite update_eq. destruct (st !! note_id) as [n|]; [|reflexivity].
    destruct (Note.new _) as [u|[m|e]]; simpl; [|reflexivity|reflexivity].
    rewrite note_response_status. destruct (serializable _); lia.
  - intros [H|H]; [discriminate|]. revert H. unfold delete_note.
    rewrite delete_eq. destruct (st !! note_id); simpl; [lia | reflexivity].
Qed.

(** X9. A method of the service that raises has written nothing, whatever
    the payload: the store after the call is the store before it. [get] and
    [list] write nothing either when they return. *)
Theorem exec_raise_keeps_store o st :
  succeeded (fst (exec o st)) = false \/ is_query o = true ->
  step o st = st.
Proof.
  destruct o as [now uuid p| |note_id|now note_id p|note_id]; simpl.
  - intros [H|H]; [|discriminate]. revert H. rewrite step_create.
    unfold exec. rewrite create_eq. destruct (Note.new _); simpl; [discriminate | reflexivity].
  - reflexivity.
  - intros _. apply step_get.
  - intros [H|H]; [|discriminate]. revert H. rewrite step_update.
    unfold exec. rewrite update_eq. destruct (st !! note_id) as [n|]; [|reflexivity].
    destruct (Note.new _); simpl; [discriminate | reflexivity].
  - intros [H|H]; [|discriminate]. revert H. unfold step, exec. rewrite delete_eq.
    destruct (st !! note_id); simpl; [discriminate | reflexivity].
Qed.

(** X12. [update] touches one entry only, whatever the payload and whether
    or not the call succeeds: every other id maps to what it mapped to
    before, and the id itself is in the store afterwards exactly when it was
    before, so an update never creates a note. *)
Theorem update_frame st now note_id (payload : NoteUpdate.t) k :
  k <> note_id ->
  snd (update now note_id payload st) !! k = st !! k
  /\ (is_Some (snd (update now note_id payload st) !! note_id) <-> is_Some (st !! note_id)).
Proof.
  intros NE. rewrite update_eq. destruct (st !! note_id) as [n|] eqn:L.
  - destruct (Note.new _) as [u|e]; simpl.
    + rewrite lookup_insert_ne by congruence. rewrite lookup_insert_eq.
      split; [reflexivity|]. split; eauto.
    + rewrite L. tauto.
  - simpl. rewrite L. tauto.
Qed.

(** X13. [create] does not look at the store: when it returns a note, the
    note sits under the drawn id whatever was there before, every other id
    is untouched, and the store has grown by one entry exactly when the id
    was not a key yet. *)
Theorem create_frame st now uuid (payload : NoteCreate.t) n st' k :
  k <> uuid ->
  create now uuid payload st = (Ok n, st') ->
  st' !! uuid = Some n
  /\ st' !! k = st !! k
  /\ size st' = match st !! uuid with
                | Some _ => size st
                | None => S (size st)
                end.
Proof.
  intros NE. rewrite create_eq. destruct (Note.new _) as [m|e] eqn:N; [|discriminate].
  intros [= <- <-]. apply Note_new_Ok in N as [-> _]. simpl.
  split; [apply lookup_insert_eq|]. split.
  - rewrite lookup_insert_ne by congruence. reflexivity.
  - destruct (st !! uuid) as [old|] eqn:L.
    + apply map_size_insert_Some. eauto.
    + apply map_size_insert_None. exact L.
Qed.

(** X24. Creating a note under an id the store does not hold and deleting
    it again gives back the store one started from. *)
Theorem create_then_delete_restores st now uuid (payload : NoteCreate.t) n st' :
  st !! uuid = None ->
  create now uuid payload st = (Ok n, st') ->
  NotesService.delete (Note.id n) st' = (Ok tt, st).
Proof.
  intros L. rewrite create_eq. destruct (Note.new _) as [m|e] eqn:N; [|discriminate].
  intros [= <- <-]. apply Note_new_Ok in N as [-> _]. simpl.
  rewrite delete_eq, lookup_insert_eq, delete_insert_eq.
  rewrite delete_id by exact L. reflexivity.
Qed.

(** X25. Only [delete] removes notes: after any other method call, every id
    that was in the store is still in it. *)
Theorem only_delete_removes o st k :
  is_delete o = false ->
  is_Some (st !! k) ->
  is_Some (step o st !! k).
Proof.
  intros D S. destruct o as [now uuid p| |note_id|now note_id p|note_id];
    try discriminate.
  - rewrite step_create. destruct (Note.new _) as [n|e]; [|exact S].
    rewrite lookup_insert. case_decide; eauto.
  - exact S.
  - rewrite step_get. exact S.
  - rewrite step_update. destruct (st !! note_id) as [n|]; [|exact S].
    destruct (Note.new _) as [u|e]; [|exact S].
    rewrite lookup_insert. case_decide; eauto.
Qed.

End Frames.

(** ** Updates that supply nothing *)

Section EmptyUpdates.

Implicit Types (st : store) (now : datetime) (note_id : UUID).

(** X10. On a note of a store the service can be in, [PUT] with [title]
    set to [null] is answered like the request without the [title] key and
    leaves the same store; the stored title is the one from before. *)
Theorem update_null_title_is_absent st now note_id (c : option json) n :
  reachable st ->
  st !! note_id = Some n ->
  update_note now note_id (Body (Some JNull) c) st = update_note now note_id (Body None c) st
  /\ exists n', snd (update_note now note_id (Body (Some JNull) c) st) !! note_id = Some n'
                /\ Note.title n' = Note.title n.
Proof.
  intros R L. split; [reflexivity|].
  rewrite (update_note_eq st now note_id _ R).
  unfold NoteUpdate.model_validate. simpl.
  destruct (NoteBase.content_field c) as [errs|co]; simpl; [eauto|].
  rewrite L. simpl. rewrite lookup_insert_eq. eauto.
Qed.

(** X11. On a note of a store the service can be in, [PUT] with an empty
    body is not rejected: it stores the note with the clock reading as
    [updated_at] and every other field as it was, and answers 200 with it,
    or 500 when the title or content of the note cannot be encoded. *)
Theorem update_empty_body_refreshes_timestamp st now note_id n :
  reachable st ->
  st !! note_id = Some n ->
  update_note now note_id (Body None None) st
  = (if serializable n
     then Response 200 (NoteBody (Note.Build (Note.id n) (Note.title n) (Note.content n)
                                             (Note.created_at n) now))
     else Response 500 (TextBody "Internal Server Error"),
     <[note_id := Note.Build (Note.id n) (Note.title n) (Note.content n)
                             (Note.created_at n) now]> st).
Proof.
  intros R L. rewrite (update_note_eq st now note_id _ R). simpl. rewrite L. reflexivity.
Qed.

End EmptyUpdates.

(** ** Listing *)

Section Listing.

Implicit Types (st : store) (now : datetime) (uuid note_id : UUID).

(** In a store the service can be in, the ids of the listed notes are the
    keys of the store, in the same order. *)
Lemma ids_of_values st :
  reachable st -> map Note.id (map snd (map_to_list st)) = map fst (map_to_list st).
Proof.
  intros R. pose proof (keyed_by_id_reachable _ R) as K.
  assert (H : forall l : list (UUID * Note.t),
             (forall k n, (k, n) ∈ l -> Note.id n = k) ->
             map Note.id (map snd l) = map fst l).
  { induction l as [|[k n] l IH]; intros Hl; simpl; [reflexivity|].
    rewrite (Hl k n) by left. f_equal. apply IH.
    intros k' n' H'. apply Hl. right. exact H'. }
  apply H. intros k n Hin. apply K. apply elem_of_map_to_list. exact Hin.
Qed.

(** X14. In a store the service can be in, [list] and [get] agree: a note is
    among those [list] returns exactly when [get] on its id returns it. *)
Theorem list_get_agree st (l : list Note.t) (n : Note.t) :
  reachable st ->
  list_ st = (Ok l, st) ->
  n ∈ l <-> get (Note.id n) st = (Ok n, st).
Proof.
  intros R E. rewrite list_eq in E. injection E as <-.
  rewrite elem_of_values, get_eq. split.
  - intros [k L]. rewrite <- (keyed_by_id_reachable _ R _ _ L) in L.
    rewrite L. reflexivity.
  - destruct (st !! Note.id n) as [m|] eqn:L; [|discriminate].
    intros [= ->]. eauto.
Qed.

(** X15. In a store the service can be in, [list] returns one note per
    stored id: no two listed notes have the same id, and there are as many
    as the store has entries. *)
Theorem list_ids_distinct st (l : list Note.t) :
  reachable st ->
  list_ st = (Ok l, st) ->
  NoDup (map Note.id l) /\ length l = size st.
Proof.
  intros R E. rewrite list_eq in E. injection E as <-. split.
  - rewrite (ids_of_values _ R). apply NoDup_fst_map_to_list.
  - rewrite length_map. apply length_map_to_list.
Qed.

(** X16. In a store the service can be in, the note [get] returns has the
    id that was asked for, and the call does not change the store. *)
Theorem get_returns_requested_id st note_id (n : Note.t) st' :
  reachable st ->
  get note_id st = (Ok n, st') ->
  Note.id n = note_id /\ st' = st /\ st !! note_id = Some n.
Proof.
  intros R. rewrite get_eq. destruct (st !! note_id) as [m|] eqn:L; [|discriminate].
  intros [= <- <-]. split; [|auto]. exact (keyed_by_id_reachable _ R _ _ L).
Qed.

(** X17. After a [create] under an id the store did not hold, [list]
    returns the new note together with the notes it returned before, up to
    order. *)
Theorem list_after_fresh_create st now uuid (payload : NoteCreate.t) n st' (l l' : list Note.t) :
  st !! uuid = None ->
  create now uuid payload st = (Ok n, st') ->
  list_ st = (Ok l, st) ->
  list_ st' = (Ok l', st') ->
  l' ≡ₚ n :: l.
Proof.
  intros L. rewrite create_eq. destruct (Note.new _) as [m|e] eqn:N; [|discriminate].
  intros [= <- <-]. apply Note_new_Ok in N as [-> _]. simpl.
  rewrite !list_eq. intros [= <-] [= <-].
  change (map snd ?x) with (snd <$> x).
  rewrite map_to_list_insert by exact L. reflexivity.
Qed.

(** X18. After a [delete] that returns, [list] returns the notes it
    returned before without the deleted one, up to order. *)
Theorem list_after_delete st note_id (n : Note.t) :
  st !! note_id = Some n ->
  exists l l' st',
    NotesService.delete note_id st = (Ok tt, st')
    /\ list_ st = (Ok l, st)
    /\ list_ st' = (Ok l', st')
    /\ l ≡ₚ n :: l'.
Proof.
  intros L. eexists _, _, _. rewrite delete_eq, L, !list_eq.
  split; [reflexivity|]. split; [reflexivity|]. split; [reflexivity|].
  change (map snd ?x) with (snd <$> x).
  rewrite <- (map_to_list_delete st note_id n L). reflexivity.
Qed.

End Listing.

(** ** The life of a note *)

Section NoteLife.

Implicit Types (st : store) (o : op) (ops : list op) (k : UUID).

(** One method call that neither deletes the note under [k] nor creates
    another note under [k] keeps it there, with its id, its creation time
    and, once set, a content. *)
Lemma note_survives_step o st k (n : Note.t) :
  ends_note k o = false ->
  st !! k = Some n ->
  exists n',
    step o st !! k = Some n'
    /\ Note.id n' = Note.id n
    /\ Note.created_at n' = Note.created_at n
    /\ (is_Some (Note.content n) -> is_Some (Note.content n')).
Proof.
  intros E L. destruct o as [now uuid p| |note_id|now note_id p|note_id]; simpl in E.
  - apply N.eqb_neq in E. rewrite step_create.
    destruct (Note.new _) as [m|e] eqn:N; [|eauto].
    apply Note_new_Ok in N as [-> _]. simpl.
    rewrite lookup_insert_ne by exact E. eauto.
  - eauto.
  - rewrite step_get. eauto.
  - rewrite step_update. destruct (decide (note_id = k)) as [->|NE].
    + rewrite L. destruct (Note.new _) as [u|e] eqn:N; [|eauto].
      apply Note_new_Ok in N as [-> _]. simpl.
      rewrite lookup_insert_eq. eexists. split; [reflexivity|]. simpl.
      split; [reflexivity|]. split; [reflexivity|].
      destruct (NoteUpdate.content p); eauto.
    + destruct (st !! note_id) as [m|]; [|eauto].
      destruct (Note.new _) as [u|e]; [|eauto].
      rewrite lookup_insert_ne by exact NE. eauto.
  - apply N.eqb_neq in E. rewrite step_delete.
    rewrite lookup_delete_ne by exact E. eauto.
Qed.

Lemma note_survives_run ops st k (n : Note.t) :
  forallb (fun o => negb (ends_note k o)) ops = true ->
  st !! k = Some n ->
  exists n',
    run ops st !! k = Some n'
    /\ Note.id n' = Note.id n
    /\ Note.created_at n' = Note.created_at n
    /\ (is_Some (Note.content n) -> is_Some (Note.content n')).
Proof.
  revert st n. induction ops as [|o ops IH]; intros st n F L; simpl.
  - eauto.
  - simpl in F. apply andb_true_iff in F as [Fo F]. apply negb_true_iff in Fo.
    destruct (note_survives_step o st k n Fo L) as (m & Lm & I1 & C1 & S1).
    destruct (IH _ m F Lm) as (n' & Ln' & I2 & C2 & S2).
    exists n'. split; [exact Ln'|]. split; [congruence|]. split; [congruence|]. auto.
Qed.

(** X19. Along any run that does not delete a stored note and in which
    [uuid4] does not return its id again, the note stays in the store and
    its [id] and [created_at] never change, whatever updates it receives. *)
Theorem id_and_created_at_immutable ops st k (n : Note.t) :
  forallb (fun o => negb (ends_note k o)) ops = true ->
  st !! k = Some n ->
  exists n',
    run ops st !! k = Some n'
    /\ Note.id n' = Note.id n
    /\ Note.created_at n' = Note.created_at n.
Proof.
  intros F L. destruct (note_survives_run ops st k n F L) as (n' & H1 & H2 & H3 & _).
  eauto.
Qed.

(** X20. A content, once set, cannot be taken away by updates: along any
    run that does not delete the note and in which [uuid4] does not return
    its id again, a note that has a content still has one at the end. *)
Theorem content_never_cleared ops st k (n : Note.t) (co : str) :
  forallb (fun o => negb (ends_note k o)) ops = true ->
  st !! k = Some n ->
  Note.content n = Some co ->
  exists n' co',
    run ops st !! k = Some n' /\ Note.content n' = Some co'.
Proof.
  intros F L C. destruct (note_survives_run ops st k n F L) as (n' & H1 & _ & _ & H4).
  destruct H4 as [co' H4]; [rewrite C; eauto|]. eauto.
Qed.

(** X21. The service invents no ids: in a run from the empty store, every
    id in the store is one that [uuid4] returned during the run, and the
    note filed under it carries that id. *)
Theorem stored_ids_were_drawn ops k (n : Note.t) :
  run ops init !! k = Some n ->
  k ∈ uuid4_draws ops /\ Note.id n = k.
Proof.
  intros L. split.
  - destruct (decide (k ∈ uuid4_draws ops)) as [H|H]; [exact H|].
    rewrite (run_lookup_None ops init k) in L; [discriminate | apply lookup_empty | exact H].
  - apply (keyed_by_id_reachable (run ops init)); [|exact L].
    apply reachable_run, reachable_init.
Qed.

Lemma size_step o st : (size (step o st) <= size st + (if is_create o then 1 else 0))%nat.
Proof.
  destruct o as [now uuid p| |note_id|now note_id p|note_id]; simpl.
  - rewrite step_create. destruct (Note.new _) as [n|e]; [|lia].
    rewrite map_size_insert. destruct (st !! Note.id n); simpl; unfold id; lia.
  - rewrite step_list. lia.
  - rewrite step_get. lia.
  - rewrite step_update. destruct (st !! note_id) as [n|] eqn:L; [|lia].
    destruct (Note.new _) as [u|e]; [|lia].
    rewrite map_size_insert, L. simpl; unfold id; lia.
  - rewrite step_delete, map_size_delete. destruct (st !! note_id); simpl; unfold id; lia.
Qed.

Lemma size_run_le ops st : (size (run ops st) <= size st + count is_create ops)%nat.
Proof.
  revert st. induction ops as [|o ops IH]; intros st; simpl; [lia|].
  specialize (IH (step o st)). pose proof (size_step o st) as S.
  unfold count in *. simpl. destruct (is_create o); simpl in *; lia.
Qed.

(** X22. In a run from the empty store, [list] never returns more notes
    than there were calls of [create]. *)
Theorem list_bounded_by_creates ops :
  exists l,
    list_ (run ops init) = (Ok l, run ops init)
    /\ (length l <= count is_create ops)%nat.
Proof.
  eexists. split; [apply list_eq|].
  rewrite length_map, length_map_to_list.
  pose proof (size_run_le ops init) as H. unfold init in H at 2.
  rewrite map_size_empty in H. exact H.
Qed.

(** X23. Two updates of the same note in a row amount to one update with
    the two payloads merged, the later payload and the later clock reading
    winning: for validated payloads, on a store the service can be in, both
    leave the same store. *)
Theorem update_twice_is_update_merged st now1 now2 k (b1 b2 : body) (p1 p2 : NoteUpdate.t) :
  reachable st ->
  NoteUpdate.model_validate b1 = inr p1 ->
  NoteUpdate.model_validate b2 = inr p2 ->
  run [Update now1 k p1; Update now2 k p2] st = run [Update now2 k (later_wins p1 p2)] st.
Proof.
  intros R V1 V2. simpl. rewrite !step_update.
  destruct (st !! k) as [n|] eqn:L.
  - pose proof (titles_clean_reachable _ R _ _ L) as Cn.
    assert (C1 : clean (default (Note.title n) (NoteUpdate.title p1))).
    { destruct (NoteUpdate.title p1) as [t|] eqn:T; simpl;
        [exact (NoteUpdate_validated _ _ V1 _ T) | exact Cn]. }
    rewrite (Note_new_clean (update_data now1 p1 n)) by exact C1.
    rewrite lookup_insert_eq.
    assert (C2 : clean (Note.d_title (update_data now2 p2
                 (Note.Build (Note.id n) (default (Note.title n) (NoteUpdate.title p1))
                    (Note.d_content (update_data now1 p1 n)) (Note.created_at n) now1)))).
    { simpl. destruct (NoteUpdate.title p2) as [t|] eqn:T; simpl;
        [exact (NoteUpdate_validated _ _ V2 _ T) | exact C1]. }
    simpl Note.d_id. simpl Note.d_title at 1. simpl Note.d_created_at. simpl Note.d_updated_at.
    rewrite Note_new_clean by exact C2.
    assert (C3 : clean (Note.d_title (update_data now2 (later_wins p1 p2) n))).
    { simpl. destruct (NoteUpdate.title p2) as [t|] eqn:T; simpl;
        [exact (NoteUpdate_validated _ _ V2 _ T) | exact C1]. }
    rewrite Note_new_clean by exact C3.
    rewrite insert_insert_eq. f_equal. simpl.
    destruct (NoteUpdate.title p2), (NoteUpdate.content p2); reflexivity.
  - rewrite L. reflexivity.
Qed.

End NoteLife.

(** ** Closed instances of the further properties *)

Section MoreInstances.

Lemma st_two_reachable : reachable st_two.
Proof. apply reachable_run, reachable_init. Qed.

Lemma uuid_b_not_a : uuid_b <> uuid_a.
Proof. discriminate. Qed.

Lemma uuid_a_not_b : uuid_a <> uuid_b.
Proof. discriminate. Qed.

Lemma validated_title_trims_input_witness :
  exists p q,
    s_a_b = p ++ [ch_a; SP; ch_b] ++ q
    /\ blank p = true
    /\ blank q = true
    /\ (exists c r, [ch_a; SP; ch_b] = c :: r /\ isspace c = false)
    /\ (exists r c, [ch_a; SP; ch_b] = r ++ [c] /\ isspace c = false).
Proof. exact (validated_title_trims_input s_a_b [ch_a; SP; ch_b] eq_refl). Defined.

Lemma validated_note_rebuilds_witness :
  Note.new (Note.model_dump n_retitled) = Ok n_retitled
  /\ NoteBase.validate_title_non_empty (Note.title n_retitled) = inr (Note.title n_retitled)
  /\ NoteUpdate.validate_title_if_present (Some (Note.title n_retitled))
     = inr (Some (Note.title n_retitled)).
Proof. exact (validated_note_rebuilds s_padded_X n_retitled eq_refl). Defined.

(** A title holding a lone surrogate: the note is stored, the answer is 500. *)
Lemma create_note_stores_stripped_title_witness :
  blank s_lone = false
  /\ create_note 150 uuid_b (Body (Some (JStr s_lone)) (Some JNull)) st_one
     = (Response 500 (TextBody "Internal Server Error"), <[uuid_b := n_lone]> st_one).
Proof.
  split; [reflexivity|].
  exact (create_note_stores_stripped_title st_one 150 uuid_b s_lone (Some JNull) None
           eq_refl eq_refl).
Defined.

Lemma update_note_outcomes_witness :
  exists u,
    update_note 200 uuid_a (Body (Some (JStr s_padded_X)) None) st_one
    = (if serializable u then Response 200 (NoteBody u)
       else Response 500 (TextBody "Internal Server Error"),
       <[uuid_a := u]> st_one)
    /\ Note.id u = Note.id n_one
    /\ Note.title u = s_X
    /\ Note.content u = Note.content n_one
    /\ Note.created_at u = Note.created_at n_one
    /\ Note.updated_at u = 200.
Proof.
  exact (update_note_outcomes st_one 200 uuid_a (Body (Some (JStr s_padded_X)) None)
           st_one_reachable ltac:(discriminate) ltac:(discriminate)).
Defined.

Lemma handle_error_or_read_keeps_store_witness :
  400 <= status_code (fst (handle (DELETE_note (Some uuid_b)) st_one)) < 500
  /\ snd (handle (DELETE_note (Some uuid_b)) st_one) = st_one.
Proof.
  assert (H : 400 <= status_code (fst (handle (DELETE_note (Some uuid_b)) st_one)) < 500).
  { change (400 <= 404 < 500). lia. }
  split; [exact H|].
  exact (handle_error_or_read_keeps_store (DELETE_note (Some uuid_b)) st_one (or_intror H)).
Defined.

Lemma exec_raise_keeps_store_witness :
  succeeded (fst (exec (Update 200 uuid_b (NoteUpdate.Build (Some s_X) None)) st_one)) = false
  /\ step (Update 200 uuid_b (NoteUpdate.Build (Some s_X) None)) st_one = st_one.
Proof.
  split; [reflexivity|].
  exact (exec_raise_keeps_store (Update 200 uuid_b (NoteUpdate.Build (Some s_X) None)) st_one
           (or_introl eq_refl)).
Defined.

Lemma update_null_title_is_absent_witness :
  update_note 200 uuid_a (Body (Some JNull) (Some (JStr s_a))) st_one
  = update_note 200 uuid_a (Body None (Some (JStr s_a))) st_one
  /\ exists n', snd (update_note 200 uuid_a (Body (Some JNull) (Some (JStr s_a))) st_one)
                  !! uuid_a = Some n'
                /\ Note.title n' = Note.title n_one.
Proof.
  exact (update_null_title_is_absent st_one 200 uuid_a (Some (JStr s_a)) n_one
           st_one_reachable eq_refl).
Defined.

Lemma update_empty_body_refreshes_timestamp_witness :
  update_note 200 uuid_a (Body None None) st_one
  = (Response 200 (NoteBody (Note.Build uuid_a s_a (Some s_b) 100 200)),
     <[uuid_a := Note.Build uuid_a s_a (Some s_b) 100 200]> st_one).
Proof.
  exact (update_empty_body_refreshes_timestamp st_one 200 uuid_a n_one
           st_one_reachable eq_refl).
Defined.

Lemma update_frame_witness :
  snd (update 200 uuid_a (NoteUpdate.Build (Some s_X) None) st_two) !! uuid_b = st_two !! uuid_b
  /\ (is_Some (snd (update 200 uuid_a (NoteUpdate.Build (Some s_X) None) st_two) !! uuid_a)
      <-> is_Some (st_two !! uuid_a)).
Proof.
  exact (update_frame st_two 200 uuid_a (NoteUpdate.Build (Some s_X) None) uuid_b uuid_b_not_a).
Defined.

Lemma create_frame_witness :
  st_two !! uuid_b = Some n_two
  /\ st_two !! uuid_a = st_one !! uuid_a
  /\ size st_two = match st_one !! uuid_b with
                   | Some _ => size st_one
                   | None => S (size st_one)
                   end.
Proof.
  exact (create_frame st_one 150 uuid_b p_ab n_two st_two uuid_a uuid_a_not_b eq_refl).
Defined.

Lemma create_then_delete_restores_witness :
  NotesService.delete (Note.id n_two) st_two = (Ok tt, st_one).
Proof.
  exact (create_then_delete_restores st_one 150 uuid_b p_ab n_two st_two eq_refl eq_refl).
Defined.

Lemma only_delete_removes_witness :
  is_Some (step (Create 300 uuid_a p_ab) st_two !! uuid_a).
Proof.
  exact (only_delete_removes (Create 300 uuid_a p_ab) st_two uuid_a eq_refl
           (ex_intro _ n_one eq_refl)).
Defined.

Lemma list_get_agree_witness :
  n_one ∈ [n_one] <-> get (Note.id n_one) st_one = (Ok n_one, st_one).
Proof. exact (list_get_agree st_one [n_one] n_one st_one_reachable eq_refl). Defined.

Lemma list_ids_distinct_witness :
  NoDup (map Note.id (map snd (map_to_list st_two)))
  /\ length (map snd (map_to_list st_two)) = size st_two.
Proof. exact (list_ids_distinct st_two _ st_two_reachable eq_refl). Defined.

Lemma get_returns_requested_id_witness :
  Note.id n_two = uuid_b /\ st_two = st_two /\ st_two !! uuid_b = Some n_two.
Proof.
  exact (get_returns_requested_id st_two uuid_b n_two st_two st_two_reachable eq_refl).
Defined.

Lemma list_after_fresh_create_witness :
  map snd (map_to_list st_two) ≡ₚ n_two :: [n_one].
Proof.
  exact (list_after_fresh_create st_one 150 uuid_b p_ab n_two st_two [n_one] _
           eq_refl eq_refl eq_refl eq_refl).
Defined.

Lemma list_after_delete_witness :
  exists l l' st',
    NotesService.delete uuid_b st_two = (Ok tt, st')
    /\ list_ st_two = (Ok l, st_two)
    /\ list_ st' = (Ok l', st')
    /\ l ≡ₚ n_two :: l'.
Proof. exact (list_after_delete st_two uuid_b n_two eq_refl). Defined.

Lemma id_and_created_at_immutable_witness :
  exists n',
    run ops_updates st_two !! uuid_a = Some n'
    /\ Note.id n' = Note.id n_one
    /\ Note.created_at n' = Note.created_at n_one.
Proof. exact (id_and_created_at_immutable ops_updates st_two uuid_a n_one eq_refl eq_refl). Defined.

Lemma content_never_cleared_witness :
  exists n' co',
    run ops_updates st_two !! uuid_a = Some n' /\ Note.content n' = Some co'.
Proof.
  exact (content_never_cleared ops_updates st_two uuid_a n_one s_b eq_refl eq_refl eq_refl).
Defined.

Lemma stored_ids_were_drawn_witness :
  uuid_c ∈ uuid4_draws ops_two_notes
  /\ Note.id (Note.Build uuid_c s_a (Some s_b) 300 300) = uuid_c.
Proof.
  exact (stored_ids_were_drawn ops_two_notes uuid_c
           (Note.Build uuid_c s_a (Some s_b) 300 300) eq_refl).
Defined.

Lemma update_twice_is_update_merged_witness :
  run [Update 200 uuid_a (NoteUpdate.Build (Some s_X) None);
       Update 300 uuid_a (NoteUpdate.Build None (Some s_a))] st_two
  = run [Update 300 uuid_a (later_wins (NoteUpdate.Build (Some s_X) None)
                                       (NoteUpdate.Build None (Some s_a)))] st_two.
Proof.
  exact (update_twice_is_update_merged st_two 200 300 uuid_a
           (Body (Some (JStr s_padded_X)) None) (Body None (Some (JStr s_a)))
           (NoteUpdate.Build (Some s_X) None) (NoteUpdate.Build None (Some s_a))
           st_two_reachable eq_refl eq_refl).
Defined.

End MoreInstances.
